(** * Shallow embedding of src/index.js (WebP converter service)

    The model covers the adaptive quality search [optimizeWebP], the
    per-file body of the [/convert] route, the batch response, multer's
    type and size limits in front of it, the [/download/:session/:filename]
    route and the [/download-zip/:session] route.  File-system and codec effects are
    threaded through an explicit state/error monad; the behaviour of the
    codec (sharp) and of faulty unlinks is a [World] parameter. *)

From Stdlib Require Import String Ascii List ZArith Bool Lia.
Import ListNotations.
Open Scope string_scope.
Open Scope list_scope.
Open Scope Z_scope.


(** ** Results, events and the monad *)

(** A JavaScript promise either resolves with a value or rejects with an
    [Error] whose [message] we keep. *)
Inductive result (A : Type) : Type :=
| Ok (a : A)
| Err (message : string).
Arguments Ok {A} a.
Arguments Err {A} message.

(** The observable actions of one request, in order. *)
Inductive event : Type :=
| EEncode (quality : Z) (outcome : result Z)   (* sharp(...).webp({quality}).toFile *)
| EUnlinkOutput (name : string)                  (* fsPromises.unlink(outputPath) *)
| EUnlinkUpload (path : string) (ok : bool)      (* fsPromises.unlink(file.path) *)
| EConsoleError (msg : string).                  (* console.error *)

(** multer's file object. *)
Record UploadedFile := mkUploadedFile {
  originalname : string;
  path : string;     (* temporary storage path under uploads/ *)
  size : Z;          (* declared size reported by multer *)
  mimetype : string
}.

(** The object literal pushed onto [fileSizes]; absent keys are [None]. *)
Record FileSize := mkFileSize {
  originalName : string;
  originalSize : Z;
  convertedSize : Z;
  skipped : option bool;
  error : option bool;
  errorDetail : option string
}.

(** Mutable state of one [/convert] request: the upload directory (path,
    bytes on disk), the files present in the session directory, the two
    arrays the handler pushes onto, and the event log. *)
Record St := mkSt {
  uploads : list (string * Z);
  outputs : list string;
  fileSizes : list FileSize;
  downloadUrls : list string;
  trace : list event
}.

Definition set_uploads (u : list (string * Z)) (s : St) : St :=
  mkSt u (outputs s) (fileSizes s) (downloadUrls s) (trace s).
Definition set_outputs (o : list string) (s : St) : St :=
  mkSt (uploads s) o (fileSizes s) (downloadUrls s) (trace s).
Definition set_fileSizes (f : list FileSize) (s : St) : St :=
  mkSt (uploads s) (outputs s) f (downloadUrls s) (trace s).
Definition set_downloadUrls (d : list string) (s : St) : St :=
  mkSt (uploads s) (outputs s) (fileSizes s) d (trace s).
Definition emit (e : event) (s : St) : St :=
  mkSt (uploads s) (outputs s) (fileSizes s) (downloadUrls s) (trace s ++ [e])%list.

(** An async function: state in, settled promise and state out.  State
    changes made before a rejection are kept, as in JavaScript. *)
Definition M (A : Type) : Type := St -> result A * St.

Definition ret {A} (a : A) : M A := fun s => (Ok a, s).
Definition throw {A} (msg : string) : M A := fun s => (Err msg, s).
Definition bind {A B} (m : M A) (k : A -> M B) : M B :=
  fun s => match m s with
           | (Ok a, s') => k a s'
           | (Err e, s') => (Err e, s')
           end.
(** [try { m } catch (err) { h(err.message) }] *)
Definition try_catch {A} (m : M A) (h : string -> M A) : M A :=
  fun s => match m s with
           | (Err e, s') => h e s'
           | r => r
           end.

Declare Scope js_scope.
Delimit Scope js_scope with js.
Notation "x <- m ;; k" := (bind m (fun x => k))
  (at level 61, m at next level, right associativity) : js_scope.
Notation "m ;; k" := (bind m (fun _ => k))
  (at level 61, right associativity) : js_scope.
Open Scope js_scope.

(** ** Strings and paths *)

Local Notation "a +++ b" := (String.append a b) (at level 60, right associativity).

Definition is_slash (c : ascii) : bool := Ascii.eqb c "/"%char.
Definition is_dot (c : ascii) : bool := Ascii.eqb c "."%char.

(** [path.basename(p)] (posix): the text after the last separator. *)
Fixpoint last_segment (s acc : list ascii) : list ascii :=
  match s with
  | [] => acc
  | c :: r => if is_slash c then last_segment r [] else last_segment r (acc ++ [c])%list
  end.

(** [path.extname(p)]: from the last dot of the last segment to its end,
    or the empty string when the segment has no dot or only a leading one. *)
Fixpoint ext_of_rev (r : list ascii) (suffix : list ascii) : list ascii :=
  match r with
  | [] => []
  | c :: before =>
      if is_dot c then (match before with [] => [] | _ => c :: suffix end)
      else ext_of_rev before (c :: suffix)
  end.

Definition path_extname (p : string) : string :=
  string_of_list_ascii
    (ext_of_rev (rev (last_segment (list_ascii_of_string p) [])) []).

(** [path.basename(p, ext)]: the last segment with a trailing [ext] removed. *)
Definition path_basename (p ext : string) : string :=
  let b := last_segment (list_ascii_of_string p) [] in
  let e := list_ascii_of_string ext in
  let n := length b in
  let k := length e in
  if andb (Nat.ltb 0 k) (Nat.ltb k n) then
    if list_eq_dec ascii_dec (skipn (n - k) b) e
    then string_of_list_ascii (firstn (n - k) b)
    else string_of_list_ascii b
  else string_of_list_ascii b.

(** [`${path.basename(file.originalname, path.extname(file.originalname))}.webp`] *)
Definition outputFilename (originalname : string) : string :=
  path_basename originalname (path_extname originalname) +++ ".webp".

(** ** The environment

    [sharp_webp inputPath quality] is what [sharp(inputPath).webp({quality,
    ...}).toFile(outputPath)] followed by [fsPromises.stat(outputPath)] yields:
    the size in bytes of the written file, or the codec's rejection.
    [unlink_fault p] is the rejection of [fsPromises.unlink(p)] on an upload
    that is still present (EBUSY, EPERM, ...), if any.
    [mkdir_fault dir] is the rejection of [fsPromises.mkdir(dir, { recursive:
    true })], if any, as its [err.code] and [err.message] (ENAMETOOLONG for a
    very long session id, EACCES, EEXIST when [dir] is a regular file, ...).
    Paths are written relative to [__dirname]. *)
Record World := mkWorld {
  sharp_webp : string -> Z -> result Z;
  unlink_fault : string -> option string;
  mkdir_fault : string -> option (string * string)
}.

Definition add_name (n : string) (l : list string) : list string :=
  if existsb (String.eqb n) l then l else (l ++ [n])%list.
Definition remove_name (n : string) (l : list string) : list string :=
  filter (fun x => negb (String.eqb x n)) l.

Definition enoent (syscall p : string) : string :=
  "ENOENT: no such file or directory, " +++ syscall +++ " '" +++ p +++ "'".

(** Pure state operations: pushes onto the two arrays and logging. *)
Definition push_fileSize (e : FileSize) : M unit :=
  fun s => (Ok tt, set_fileSizes (fileSizes s ++ [e])%list s).
Definition push_url (u : string) : M unit :=
  fun s => (Ok tt, set_downloadUrls (downloadUrls s ++ [u])%list s).
Definition console_error (msg : string) : M unit :=
  fun s => (Ok tt, emit (EConsoleError msg) s).
(** [const fileSizes = []; const downloadUrls = [];] *)
Definition init_arrays : M unit :=
  fun s => (Ok tt, set_downloadUrls [] (set_fileSizes [] s)).
(** [ensureDir(dir)]: a recursive mkdir; an error whose code is EEXIST is
    swallowed, any other is rethrown. *)
Definition ensureDir (w : World) (dir : string) : M unit :=
  match mkdir_fault w dir with
  | None => ret tt
  | Some (code, msg) => if String.eqb code "EEXIST" then ret tt else throw msg
  end.

Section Handlers.
Variable w : World.

(** [(await fsPromises.stat(p)).size] *)
Definition stat_upload (p : string) : M Z := fun s =>
  match find (fun e => String.eqb (fst e) p) (uploads s) with
  | Some (_, n) => (Ok n, s)
  | None => (Err (enoent "stat" p), s)
  end.

(** [await sharp(inputPath).webp({quality, ...}).toFile(out)] followed by
    [(await fsPromises.stat(out)).size]. *)
Definition encode_to_file (inputPath : string) (quality : Z) (out : string) : M Z :=
  fun s =>
    match sharp_webp w inputPath quality with
    | Ok n => (Ok n, emit (EEncode quality (Ok n)) (set_outputs (add_name out (outputs s)) s))
    | Err e => (Err e, emit (EEncode quality (Err e)) s)
    end.

(** [await fsPromises.unlink(outputPath)] in the session directory. *)
Definition unlink_output (out : string) : M unit := fun s =>
  if existsb (String.eqb out) (outputs s)
  then (Ok tt, emit (EUnlinkOutput out) (set_outputs (remove_name out (outputs s)) s))
  else (Err (enoent "unlink" out), s).

(** [await fsPromises.unlink(file.path)] on the temporary upload. *)
Definition unlink_upload (p : string) : M unit := fun s =>
  match unlink_fault w p with
  | Some m => (Err m, emit (EUnlinkUpload p false) s)
  | None =>
      if existsb (fun e => String.eqb (fst e) p) (uploads s)
      then (Ok tt, emit (EUnlinkUpload p true)
                        (set_uploads (filter (fun e => negb (String.eqb (fst e) p)) (uploads s)) s))
      else (Err (enoent "unlink" p), emit (EUnlinkUpload p false) s)
  end.

Definition maxAttempts : Z := 3.

(** The [do { ... } while (attempts < maxAttempts)] loop of [optimizeWebP],
    returning the last [convertedSize].  [attempts] grows by one on every
    iteration that goes round, so [maxAttempts] iterations of fuel are never
    used up; the [O] branch is unreachable from [optimizeWebP]. *)
Fixpoint webp_loop (fuel : nat) (inputPath out : string)
         (originalSize quality attempts : Z) : M Z :=
  convertedSize <- encode_to_file inputPath quality out ;;
  if (originalSize <=? convertedSize) && (10 <? quality) && (attempts <? maxAttempts) then
    unlink_output out ;;
    (let quality' := quality - 20 in
     let attempts' := attempts + 1 in
     if attempts' <? maxAttempts then
       match fuel with
       | S fuel' => webp_loop fuel' inputPath out originalSize quality' attempts'
       | O => ret convertedSize
       end
     else ret convertedSize)
  else if convertedSize <? 512 then throw "Converted file size too small"
  else ret convertedSize.

(** [optimizeWebP(inputPath, outputPath, originalSize, isWebP)] *)
Definition optimizeWebP (inputPath out : string) (originalSize : Z) (isWebP : bool) : M Z :=
  let quality := if isWebP then 50 else 70 in
  convertedSize <- webp_loop (Z.to_nat maxAttempts) inputPath out originalSize quality 0 ;;
  if originalSize <=? convertedSize
  then encode_to_file inputPath 20 out     (* final fallback at quality 20 *)
  else ret convertedSize.

(** The body of [for (const file of req.files) { ... }] in [/convert]. *)
Definition process_file (sessionId : string) (file : UploadedFile) : M unit :=
  let outName := outputFilename (originalname file) in
  try_catch
    (originalSize <- stat_upload (path file) ;;
     let isWebP := String.eqb (mimetype file) "image/webp" in
     convertedSize <- optimizeWebP (path file) outName originalSize isWebP ;;
     (if originalSize <=? convertedSize then
        unlink_output outName ;;
        push_fileSize (mkFileSize (originalname file) originalSize originalSize
                                  (Some true) None None) ;;
        push_url ""
      else
        push_fileSize (mkFileSize (originalname file) originalSize convertedSize
                                  None None None) ;;
        push_url ("/download/" +++ sessionId +++ "/" +++ outName)) ;;
     unlink_upload (path file))
    (fun msg =>
       console_error ("Error processing " +++ originalname file +++ ": " +++ msg) ;;
       push_fileSize (mkFileSize (originalname file) (size file) (size file)
                                 None (Some true) (Some msg)) ;;
       push_url "" ;;
       try_catch (unlink_upload (path file))
                 (fun m => console_error ("Cleanup failed: " +++ m))).

Fixpoint process_files (sessionId : string) (files : list UploadedFile) : M unit :=
  match files with
  | [] => ret tt
  | f :: fs => process_file sessionId f ;; process_files sessionId fs
  end.

End Handlers.

(** ** The [/convert] response *)

Inductive ConvertResponse : Type :=
| ConvertOk (downloadUrls : list string) (zipDownloadUrl : string)
            (fileSizes : list FileSize)                 (* status 200 *)
| ConvertError (status : Z) (error : string).

(** JavaScript truthiness of an optional boolean property. *)
Definition truthy (o : option bool) : bool :=
  match o with Some b => b | None => false end.

(** [fileSizes.length && !fileSizes.every(f => f.error || f.skipped)
       ? `/download-zip/${sessionId}` : ''] *)
Definition zipDownloadUrl_of (sessionId : string) (fs : list FileSize) : string :=
  if Nat.ltb 0 (length fs)
     && negb (forallb (fun f => truthy (error f) || truthy (skipped f)) fs)
  then "/download-zip/" +++ sessionId
  else "".

(** [req.headers['x-session-id'] || `session_${Date.now()}`]; [stamp] is the
    decimal rendering of [Date.now()]. *)
Definition resolve_session (header : option string) (stamp : string) : string :=
  match header with
  | Some h => if String.eqb h "" then "session_" +++ stamp else h
  | None => "session_" +++ stamp
  end.

Definition get_state : M St := fun s => (Ok s, s).

(** [app.post('/convert', ...)] after multer has stored [files]. *)
Definition convert (w : World) (header : option string) (stamp : string)
           (files : list UploadedFile) : M ConvertResponse :=
  try_catch
    (match files with
     | [] => ret (ConvertError 400 "No files uploaded")
     | _ =>
         let sessionId := resolve_session header stamp in
         ensureDir w ("public/" +++ sessionId) ;;
         init_arrays ;;
         process_files w sessionId files ;;
         s <- get_state ;;
         ret (ConvertOk (downloadUrls s) (zipDownloadUrl_of sessionId (fileSizes s))
                        (fileSizes s))
     end)
    (fun msg => ret (ConvertError 500 ("Server error: " +++ msg))).

(** ** Outcome status, as the spec names the three kinds of entry *)

Inductive status := Converted | Skipped | Failed.

Definition outcome_status (f : FileSize) : status :=
  if truthy (error f) then Failed
  else if truthy (skipped f) then Skipped
  else Converted.

(** ** The [/download-zip/:session] route

    [zip_listing] is what [fsPromises.readdir(sessionDir)] resolves with
    ([None]: the directory does not exist, ENOENT); [zip_archive_error] is
    the error the archiver emits, if any; [zip_delivery] describes how
    [res.download] and the final unlink of the zip go. *)

(** The error [res.download] passes to its callback.  [after_headers]: the
    transfer had already started (the client aborted mid-download,
    ECONNABORTED), so the callback's [res.status(500).json(...)] throws
    ERR_HTTP_HEADERS_SENT and the [fsPromises.unlink(zipPath)] after it is
    never run. *)
Record DeliveryError := mkDeliveryError {
  after_headers : bool;
  delivery_message : string
}.

Record Delivery := mkDelivery {
  delivery_error : option DeliveryError;
  zip_unlink_error : option string   (* rejection of fsPromises.unlink(zipPath), logged *)
}.

Record ZipEnv := mkZipEnv {
  zip_listing : option (list string);
  zip_archive_error : option string;
  zip_delivery : Delivery
}.

Inductive ZipResponse : Type :=
| ZipSent                                   (* converted_images.zip streamed *)
| ZipJson (status : Z) (error : string)
| ZipInterrupted.                           (* transfer cut; the callback throws *)

(** The response, and whether the transient [public/{session}.zip] is still
    on disk when the request is over. *)
Definition download_zip (session : string) (env : ZipEnv) : ZipResponse * bool :=
  let sessionDir := "public/" +++ session in
  match zip_listing env with
  | None =>
      (ZipJson 500 ("Failed to create ZIP: " +++ enoent "scandir" sessionDir), false)
  | Some files =>
      if Nat.eqb (length files) 0 then (ZipJson 404 "No files available to zip", false)
      else
        (* fs.createWriteStream(zipPath) creates the transient file *)
        let zip_present := true in
        match zip_archive_error env with
        | Some m => (ZipJson 500 ("Failed to create ZIP: " +++ m), zip_present)
        | None =>
            (* res.download(zipPath, ..., cb) *)
            let d := zip_delivery env in
            (* fsPromises.unlink(zipPath).catch(...) at the end of cb *)
            let left_after_unlink :=
              match zip_unlink_error d with Some _ => true | None => false end in
            match delivery_error d with
            | None => (ZipSent, left_after_unlink)
            | Some e =>
                if after_headers e then (ZipInterrupted, zip_present)
                else (ZipJson 500 "Failed to download ZIP", left_after_unlink)
            end
        end
  end.

(** ** Sample environments *)

Definition empty_state (ups : list (string * Z)) : St := mkSt ups [] [] [] [].

(** A codec that yields [n] bytes at every quality. *)
Definition const_world (n : Z) : World :=
  mkWorld (fun _ _ => Ok n) (fun _ => None) (fun _ => None).

Definition jpeg_file (name p : string) (n : Z) : UploadedFile :=
  mkUploadedFile name p n "image/jpeg".

(** ** Auxiliary definitions for the proofs *)

Definition keeps_arrays {A} (m : M A) : Prop :=
  forall s, fileSizes (snd (m s)) = fileSizes s /\ downloadUrls (snd (m s)) = downloadUrls s.

(** [m] appends aligned entries to [fileSizes] and [downloadUrls], each
    pair satisfying [P]. *)
Definition appends (P : FileSize * string -> Prop) {A} (m : M A) : Prop :=
  forall s, exists ch,
    fileSizes (snd (m s)) = fileSizes s ++ map fst ch /\
    downloadUrls (snd (m s)) = downloadUrls s ++ map snd ch /\
    Forall P ch.

(** The property of every pair recorded for [file] that C10 is about: a
    Failed entry carries [error: true], the declared sizes, and no link. *)
Definition failed_entry_ok (file : UploadedFile) (p : FileSize * string) : Prop :=
  outcome_status (fst p) = Failed ->
  error (fst p) = Some true /\ originalSize (fst p) = size file /\
  convertedSize (fst p) = size file /\ snd p = "".

Definition is_converted (f : FileSize) : bool :=
  match outcome_status f with Converted => true | _ => false end.

Definition sample_batch : list UploadedFile :=
  [jpeg_file "a.jpg" "uploads/1" 1000; jpeg_file "b.jpg" "uploads/2" 1000].

(** A codec for which "a.jpg" shrinks to 600 bytes and "b.jpg" to 300. *)
Definition sample_world : World :=
  mkWorld (fun p _ => if String.eqb p "uploads/1" then Ok 600 else Ok 300)
          (fun _ => None) (fun _ => None).

Definition sample_state : St := empty_state [("uploads/1", 1000); ("uploads/2", 1000)].

Definition sample_sizes : list FileSize :=
  [mkFileSize "a.jpg" 1000 600 None None None;
   mkFileSize "b.jpg" 1000 1000 None (Some true) (Some "Converted file size too small")].

(** The search as C3 and section 4.1 of the spec describe it, over the
    events it produces.  [Searching(quality, attempt)]: an encode; if its
    size is not below the original while [quality > 10] and
    [attempt < 3], the output is discarded and the search goes on at
    [quality - 20], [attempt + 1], or, once the attempts are used up, falls
    back.  Otherwise a size below the original ends the search, a size
    under 512 bytes fails it, and a size not below the original (quality
    floor reached) falls back.  [Fallback]: one encode at quality 20, whose
    result is returned whatever it is. *)
Inductive claimed_fallback (out : string) : list event -> result Z -> Prop :=
| cf_encode r : claimed_fallback out [EEncode 20 r] r.

Inductive claimed_search (orig : Z) (out : string) : Z -> Z -> list event -> result Z -> Prop :=
| cs_retry q a n tr r :
    orig <= n -> 10 < q -> a < 3 -> a + 1 < 3 ->
    claimed_search orig out (q - 20) (a + 1) tr r ->
    claimed_search orig out q a (EEncode q (Ok n) :: EUnlinkOutput out :: tr) r
| cs_exhausted q a n tr r :
    orig <= n -> 10 < q -> a < 3 -> a + 1 = 3 ->
    claimed_fallback out tr r ->
    claimed_search orig out q a (EEncode q (Ok n) :: EUnlinkOutput out :: tr) r
| cs_done q a n :
    ~ (orig <= n /\ 10 < q /\ a < 3) -> n < orig -> 512 <= n ->
    claimed_search orig out q a [EEncode q (Ok n)] (Ok n)
| cs_floor q a n tr r :
    ~ (orig <= n /\ 10 < q /\ a < 3) -> orig <= n -> 512 <= n ->
    claimed_fallback out tr r ->
    claimed_search orig out q a (EEncode q (Ok n) :: tr) r
| cs_too_small q a n :
    ~ (orig <= n /\ 10 < q /\ a < 3) -> n < 512 ->
    claimed_search orig out q a [EEncode q (Ok n)] (Err "Converted file size too small")
| cs_codec_error q a e :
    claimed_search orig out q a [EEncode q (Err e)] (Err e).

Fixpoint encodes (tr : list event) : nat :=
  match tr with
  | [] => O
  | EEncode _ _ :: r => S (encodes r)
  | _ :: r => encodes r
  end.

(** The state after an encode of [n] bytes at [q] and the deletion of its
    output, i.e. after the [if] branch of the loop that retries. *)
Definition after_discard (q n : Z) (out : string) (s : St) : St :=
  let s1 := emit (EEncode q (Ok n)) (set_outputs (add_name out (outputs s)) s) in
  emit (EUnlinkOutput out) (set_outputs (remove_name out (outputs s1)) s1).

(** A 200-byte JPEG for which every encode yields 300 bytes. *)
Definition tiny_world : World := const_world 300.
Definition tiny_file : UploadedFile := jpeg_file "tiny.jpg" "uploads/t" 200.
Definition tiny_state : St := empty_state [("uploads/t", 200)].

Definition photo_file : UploadedFile := jpeg_file "name.jpg" "uploads/a" 1000000.
Definition photo_state : St := empty_state [("uploads/a", 1000000)].

(** A codec that shrinks every upload to 300000 bytes, on a system where
    unlinking [uploads/a] fails with EBUSY. *)
Definition busy_msg : string := "EBUSY: resource busy or locked, unlink 'uploads/a'".
Definition busy_world : World :=
  mkWorld (fun _ _ => Ok 300000)
          (fun p => if String.eqb p "uploads/a" then Some busy_msg else None)
          (fun _ => None).

(** ** Intake and single-file download *)

(** [validTypes] of multer's [fileFilter]. *)
Definition validTypes : list string := ["image/jpeg"; "image/png"; "image/webp"; "image/gif"].

(** [limits: { fileSize: 100 * 1024 * 1024, files: 100 }] *)
Definition maxFileSize : Z := 100 * 1024 * 1024.
Definition maxFiles : nat := 100.

(** [upload.array('image')] with the [fileFilter] and [limits] above: a file
    of another type ([cb(new Error(...))]), a file over the size limit or
    more than 100 files make multer pass an error to [next]. *)
Definition intake (files : list UploadedFile) : result unit :=
  match find (fun f => negb (existsb (String.eqb (mimetype f)) validTypes)) files with
  | Some _ => Err "Invalid file type. Only JPEG, PNG, WebP, and GIF are allowed."
  | None =>
      if Nat.ltb maxFiles (length files) then Err "Too many files"
      else if existsb (fun f => maxFileSize <? size f) files then Err "File too large"
      else Ok tt
  end.

(** multer's [abortWithError]: the uploads it has already stored for the
    request are unlinked one after the other (diskStorage's [_removeFile]);
    a failed unlink is collected in [storageErrors] and the rest go on. *)
Definition remove_stored_one (w : World) (f : UploadedFile) : M unit := fun s =>
  if existsb (fun e => String.eqb (fst e) (path f)) (uploads s)
  then try_catch (unlink_upload w (path f)) (fun _ => ret tt) s
  else ret tt s.

Fixpoint remove_stored (w : World) (files : list UploadedFile) : M unit :=
  match files with
  | [] => ret tt
  | f :: fs => remove_stored_one w f ;; remove_stored w fs
  end.

(** [POST /convert]: multer, then the route; an error passed to [next]
    skips the route and, once multer has removed the stored uploads,
    reaches the global error handler
    ([res.status(500).json({ error: 'Internal server error' })]). *)
Definition post_convert (w : World) (header : option string) (stamp : string)
           (files : list UploadedFile) : M ConvertResponse :=
  match intake files with
  | Ok _ => convert w header stamp files
  | Err _ => remove_stored w files ;; ret (ConvertError 500 "Internal server error")
  end.

Inductive DownloadResponse : Type :=
| FileSent (name : string)                  (* res.download(filePath, filename) *)
| DownloadJson (status : Z) (error : string).

(** [GET /download/:session/:filename] for a plain file name, given the
    listing [dir] of [public/{session}] and the error [res.download] reports
    to its callback, if any. *)
Definition download_file (dir : list string) (filename : string)
           (delivery_error : option string) : DownloadResponse :=
  if existsb (String.eqb filename) dir          (* await fsPromises.access(filePath) *)
  then match delivery_error with
       | None => FileSent filename
       | Some _ => DownloadJson 500 "Failed to download file"
       end
  else DownloadJson 404 "File not found".

(** ** Relations between states, for frame reasoning *)

Definition mem (n : string) (l : list string) : bool := existsb (String.eqb n) l.

Definition upload_present (p : string) (s : St) : bool :=
  existsb (fun e => String.eqb (fst e) p) (uploads s).

(** [m] relates every start state to its end state by [R]. *)
Definition preserves (R : St -> St -> Prop) {A} (m : M A) : Prop :=
  forall s, R s (snd (m s)).

Definition same_uploads (s s' : St) : Prop := uploads s' = uploads s.

(** No upload reappears. *)
Definition no_new_uploads (s s' : St) : Prop :=
  forall p, upload_present p s' = true -> upload_present p s = true.

(** Only session files named in [N] may appear or disappear. *)
Definition only_outputs (N : list string) (s s' : St) : Prop :=
  forall n, ~ In n N -> mem n (outputs s') = mem n (outputs s).

Definition same_outputs (s s' : St) : Prop := outputs s' = outputs s.

Fixpoint upload_unlinks (tr : list event) : nat :=
  match tr with
  | [] => O
  | EUnlinkUpload _ _ :: r => S (upload_unlinks r)
  | _ :: r => upload_unlinks r
  end.

(** The log grows, with no unlink of an upload among the new events. *)
Definition no_upload_unlink (s s' : St) : Prop :=
  exists tr, trace s' = trace s ++ tr /\ upload_unlinks tr = O.

(** What a [/download/...] link of [/convert] points at. *)
Definition link (sessionId : string) (f : UploadedFile) : string :=
  "/download/" +++ sessionId +++ "/" +++ outputFilename (originalname f).

(** The name of the output [/convert] writes for [f]. *)
Definition out_name (f : UploadedFile) : string := outputFilename (originalname f).

Definition pdf_file : UploadedFile := mkUploadedFile "doc.pdf" "uploads/3" 5000 "application/pdf".
Definition pdf_batch : list UploadedFile := [photo_file; pdf_file].

(** [sample_state] with a session directory that already holds a file and
    an unrelated upload. *)
Definition busy_dir_state : St :=
  mkSt [("uploads/1", 1000); ("uploads/2", 1000); ("uploads/9", 5)] ["old.webp"] [] [] [].

(** Every non-empty link recorded so far names the output of a file of
    [F] that is present in the session directory. *)
Definition links_ok (sessionId : string) (F : list UploadedFile) (s : St) : Prop :=
  forall u, In u (downloadUrls s) ->
    u = "" \/ exists f, In f F /\ u = link sessionId f /\
                       mem (outputFilename (originalname f)) (outputs s) = true.

(** ** Scenarios of the spec, evaluated *)

Example outputFilename_jpg : outputFilename "holiday/photo.jpg" = "photo.webp"%string.
Proof. reflexivity. Qed.
Example outputFilename_dotfile : outputFilename ".hidden" = ".hidden.webp"%string.
Proof. reflexivity. Qed.

Example scenario_A :
  fst (convert (const_world 400000) (Some "s") "0" [jpeg_file "name.jpg" "uploads/a" 1000000]
               (empty_state [("uploads/a", 1000000)]))
  = Ok (ConvertOk ["/download/s/name.webp"] "/download-zip/s"
                  [mkFileSize "name.jpg" 1000000 400000 None None None]).
Proof. reflexivity. Qed.

(** Scenario B: a 2000-byte WebP whose every encode yields 2000 bytes is
    tried at qualities 50, 30, 10 and the fallback 20, then Skipped. *)
Example scenario_B :
  convert (const_world 2000) (Some "s") "0" [mkUploadedFile "n.webp" "uploads/b" 2000 "image/webp"]
          (empty_state [("uploads/b", 2000)])
  = (Ok (ConvertOk [""] "" [mkFileSize "n.webp" 2000 2000 (Some true) None None]),
     mkSt [] [] [mkFileSize "n.webp" 2000 2000 (Some true) None None] [""]
          [EEncode 50 (Ok 2000); EUnlinkOutput "n.webp"; EEncode 30 (Ok 2000);
           EUnlinkOutput "n.webp"; EEncode 10 (Ok 2000); EEncode 20 (Ok 2000);
           EUnlinkOutput "n.webp"; EUnlinkUpload "uploads/b" true]).
Proof. reflexivity. Qed.

(** Scenario F: an existing, empty session directory. *)
Example scenario_F :
  download_zip "s" (mkZipEnv (Some []) None (mkDelivery None None))
  = (ZipJson 404 "No files available to zip", false).
Proof. reflexivity. Qed.

(** ** Frame lemmas: which operations leave the response arrays alone *)

Create HintDb arrays.

Lemma keeps_ret {A} (a : A) : keeps_arrays (ret a).
Proof. intro s; split; reflexivity. Qed.

Lemma keeps_throw {A} m : keeps_arrays (@throw A m).
Proof. intro s; split; reflexivity. Qed.

Lemma keeps_bind {A B} (m : M A) (k : A -> M B) :
  keeps_arrays m -> (forall a, keeps_arrays (k a)) -> keeps_arrays (bind m k).
Proof.
  intros Hm Hk s. unfold bind. specialize (Hm s).
  destruct (m s) as [[a|e] s'] eqn:E; simpl in *.
  - destruct (Hk a s') as [H1 H2]. destruct Hm as [H3 H4]. split; congruence.
  - exact Hm.
Qed.

Lemma keeps_if {A} (b : bool) (m1 m2 : M A) :
  keeps_arrays m1 -> keeps_arrays m2 -> keeps_arrays (if b then m1 else m2).
Proof. destruct b; auto. Qed.

Lemma keeps_encode w inp q out : keeps_arrays (encode_to_file w inp q out).
Proof. intro s; unfold encode_to_file; destruct (sharp_webp w inp q); split; reflexivity. Qed.

Lemma keeps_unlink_output out : keeps_arrays (unlink_output out).
Proof. intro s; unfold unlink_output; destruct existsb; split; reflexivity. Qed.

Lemma keeps_unlink_upload w p : keeps_arrays (unlink_upload w p).
Proof.
  intro s; unfold unlink_upload; destruct (unlink_fault w p); [|destruct existsb];
    split; reflexivity.
Qed.

Lemma keeps_stat p : keeps_arrays (stat_upload p).
Proof. intro s; unfold stat_upload; destruct find as [[]|]; split; reflexivity. Qed.

Lemma keeps_console m : keeps_arrays (console_error m).
Proof. intro s; split; reflexivity. Qed.

#[export] Hint Resolve keeps_ret keeps_throw keeps_bind keeps_if keeps_encode
  keeps_unlink_output keeps_unlink_upload keeps_stat keeps_console : arrays.

Ltac keeps := repeat (intros; match goal with
  | |- keeps_arrays (match ?n with O => _ | S _ => _ end) => destruct n
  | |- keeps_arrays (bind _ _) => apply keeps_bind
  | |- keeps_arrays (if _ then _ else _) => apply keeps_if
  | _ => eauto with arrays
  end).

Lemma keeps_webp_loop w fuel inp out orig q a :
  keeps_arrays (webp_loop w fuel inp out orig q a).
Proof.
  revert q a; induction fuel as [|fuel IH]; intros q a; simpl; keeps.
Qed.

Lemma keeps_optimizeWebP w inp out orig isWebP :
  keeps_arrays (optimizeWebP w inp out orig isWebP).
Proof. unfold optimizeWebP; keeps; apply keeps_webp_loop. Qed.

#[export] Hint Resolve keeps_webp_loop keeps_optimizeWebP : arrays.

Lemma appends_of_keeps P {A} (m : M A) : keeps_arrays m -> appends P m.
Proof.
  intros H s. exists []. destruct (H s). rewrite !app_nil_r. auto.
Qed.

Lemma appends_bind P {A B} (m : M A) (k : A -> M B) :
  appends P m -> (forall a, appends P (k a)) -> appends P (bind m k).
Proof.
  intros Hm Hk s. unfold bind. destruct (Hm s) as (ch1 & H1 & H2 & H3).
  destruct (m s) as [[a|e] s'] eqn:E; simpl in *.
  - destruct (Hk a s') as (ch2 & H4 & H5 & H6). exists (ch1 ++ ch2).
    rewrite !map_app, !app_assoc, <- H1, <- H2.
    split; [|split]; auto. apply Forall_app; auto.
  - exists ch1; auto.
Qed.

Lemma appends_try P {A} (m : M A) (h : string -> M A) :
  appends P m -> (forall e, appends P (h e)) -> appends P (try_catch m h).
Proof.
  intros Hm Hh s. unfold try_catch. destruct (Hm s) as (ch1 & H1 & H2 & H3).
  destruct (m s) as [[a|e] s'] eqn:E; simpl in *.
  - exists ch1; auto.
  - destruct (Hh e s') as (ch2 & H4 & H5 & H6). exists (ch1 ++ ch2).
    rewrite !map_app, !app_assoc, <- H1, <- H2.
    split; [|split]; auto. apply Forall_app; auto.
Qed.

Lemma appends_if P {A} (b : bool) (m1 m2 : M A) :
  appends P m1 -> appends P m2 -> appends P (if b then m1 else m2).
Proof. destruct b; auto. Qed.

(** [fileSizes.push(e); downloadUrls.push(u); k] *)
Lemma appends_push_pair P e u {A} (k : M A) :
  P (e, u) -> appends P k -> appends P (push_fileSize e ;; (push_url u ;; k)).
Proof.
  intros HP Hk s. unfold bind; simpl.
  destruct (Hk (set_downloadUrls (downloadUrls s ++ [u]) (set_fileSizes (fileSizes s ++ [e]) s)))
    as (ch & H1 & H2 & H3).
  exists ((e, u) :: ch). simpl in *. rewrite H1, H2, <- !app_assoc. auto.
Qed.

Lemma appends_push_pair_end P e u :
  P (e, u) -> appends P (push_fileSize e ;; push_url u).
Proof.
  intros HP s. exists [(e, u)]. simpl. auto.
Qed.

Lemma keeps_try {A} (m : M A) h :
  keeps_arrays m -> (forall e, keeps_arrays (h e)) -> keeps_arrays (try_catch m h).
Proof.
  intros Hm Hh s. unfold try_catch. specialize (Hm s).
  destruct (m s) as [[a|e] s'] eqn:E; simpl in *; auto.
  destruct (Hh e s'); destruct Hm; split; congruence.
Qed.

#[export] Hint Resolve keeps_try : arrays.

Lemma process_file_appends w sid f : appends (failed_entry_ok f) (process_file w sid f).
Proof.
  unfold process_file. apply appends_try.
  - apply appends_bind; [apply appends_of_keeps; keeps | intro orig].
    apply appends_bind; [apply appends_of_keeps; keeps | intro cs].
    apply appends_bind; [| intro; apply appends_of_keeps; keeps].
    apply appends_if.
    + apply appends_bind; [apply appends_of_keeps; keeps | intro].
      apply appends_push_pair_end. unfold failed_entry_ok, outcome_status; simpl.
      discriminate.
    + apply appends_push_pair_end. unfold failed_entry_ok, outcome_status; simpl.
      discriminate.
  - intro e. apply appends_bind; [apply appends_of_keeps; keeps | intro].
    apply appends_push_pair; [| apply appends_of_keeps; keeps].
    unfold failed_entry_ok; simpl. auto.
Qed.

Lemma process_file_ok w sid f s : fst (process_file w sid f s) = Ok tt.
Proof.
  unfold process_file, try_catch.
  match goal with |- context [match ?m s with _ => _ end] =>
    destruct (m s) as [[[]|e] s1] end; [reflexivity|].
  unfold bind; simpl.
  destruct (unlink_upload w (path f) _) as [[[]|e'] s2]; reflexivity.
Qed.

Lemma process_files_ok w sid files s : fst (process_files w sid files s) = Ok tt.
Proof.
  revert s; induction files as [|f fs IH]; intro s; [reflexivity|].
  simpl. unfold bind. pose proof (process_file_ok w sid f s) as H.
  destruct (process_file w sid f s) as [r s1]; simpl in H; subst r. apply IH.
Qed.

Lemma process_files_chunks w sid files s : exists chunks,
  fileSizes (snd (process_files w sid files s)) = fileSizes s ++ concat (map (map fst) chunks) /\
  downloadUrls (snd (process_files w sid files s)) = downloadUrls s ++ concat (map (map snd) chunks) /\
  Forall2 (fun f ch => Forall (failed_entry_ok f) ch) files chunks.
Proof.
  revert s; induction files as [|f fs IH]; intro s.
  - exists []. simpl. rewrite !app_nil_r. auto.
  - simpl. unfold bind.
    destruct (process_file_appends w sid f s) as (ch & H1 & H2 & H3).
    pose proof (process_file_ok w sid f s) as Hok.
    destruct (process_file w sid f s) as [r s1]; simpl in *; subst r.
    destruct (IH s1) as (chs & H4 & H5 & H6).
    exists (ch :: chs). simpl. rewrite H4, H5, H1, H2, !app_assoc. auto.
Qed.

(** [ensureDir] leaves the state alone and either resolves or rejects. *)
Lemma ensureDir_cases w dir s :
  ensureDir w dir s = (Ok tt, s) \/ exists msg, ensureDir w dir s = (Err msg, s).
Proof.
  unfold ensureDir. destruct (mkdir_fault w dir) as [[c m]|];
    [destruct (String.eqb c "EEXIST")|];
    first [left; reflexivity | right; eexists; reflexivity].
Qed.

Lemma convert_mkdir_ok w h stamp f fs s :
  ensureDir w ("public/" +++ resolve_session h stamp) s = (Ok tt, s) ->
  convert w h stamp (f :: fs) s =
  (Ok (ConvertOk (downloadUrls (snd (process_files w (resolve_session h stamp) (f :: fs)
                                      (set_downloadUrls [] (set_fileSizes [] s)))))
                 (zipDownloadUrl_of (resolve_session h stamp)
                    (fileSizes (snd (process_files w (resolve_session h stamp) (f :: fs)
                                       (set_downloadUrls [] (set_fileSizes [] s))))))
                 (fileSizes (snd (process_files w (resolve_session h stamp) (f :: fs)
                                    (set_downloadUrls [] (set_fileSizes [] s)))))),
   snd (process_files w (resolve_session h stamp) (f :: fs)
          (set_downloadUrls [] (set_fileSizes [] s)))).
Proof.
  intro He. unfold convert, try_catch, bind. cbv beta iota zeta. rewrite He.
  unfold init_arrays. cbv beta iota.
  pose proof (process_files_ok w (resolve_session h stamp) (f :: fs)
                (set_downloadUrls [] (set_fileSizes [] s))) as Hok.
  destruct (process_files w _ (f :: fs) _) as [r s1]; simpl in Hok; subst r. reflexivity.
Qed.

Lemma convert_mkdir_err w h stamp f fs s msg :
  ensureDir w ("public/" +++ resolve_session h stamp) s = (Err msg, s) ->
  convert w h stamp (f :: fs) s = (Ok (ConvertError 500 ("Server error: " +++ msg)), s).
Proof. intro He. unfold convert, try_catch, bind. cbv beta iota zeta. rewrite He. reflexivity. Qed.

(** Running [/convert] on a non-empty batch: the arrays are those left by
    the per-file loop started from empty arrays. *)
Lemma convert_run w h stamp files s urls zip sizes :
  fst (convert w h stamp files s) = Ok (ConvertOk urls zip sizes) ->
  let s' := snd (process_files w (resolve_session h stamp) files
                               (set_downloadUrls [] (set_fileSizes [] s))) in
  urls = downloadUrls s' /\ sizes = fileSizes s' /\
  zip = zipDownloadUrl_of (resolve_session h stamp) sizes.
Proof.
  intro H. destruct files as [|f fs]; [discriminate|].
  destruct (ensureDir_cases w ("public/" +++ resolve_session h stamp) s) as [He|[msg He]].
  - rewrite (convert_mkdir_ok w h stamp f fs s He) in H. cbn [fst] in H.
    intro s'. subst s'. repeat split; congruence.
  - rewrite (convert_mkdir_err w h stamp f fs s msg He) in H. discriminate.
Qed.

Lemma negb_forallb_existsb {A} (p : A -> bool) (l : list A) :
  negb (forallb p l) = existsb (fun x => negb (p x)) l.
Proof.
  induction l as [|x l IH]; simpl; [reflexivity|].
  rewrite negb_andb, IH. reflexivity.
Qed.

Lemma zipDownloadUrl_of_converted sid l :
  zipDownloadUrl_of sid l =
  if existsb is_converted l then "/download-zip/" +++ sid else "".
Proof.
  unfold zipDownloadUrl_of. rewrite negb_forallb_existsb.
  replace (existsb (fun x => negb (truthy (error x) || truthy (skipped x))) l)
    with (existsb is_converted l).
  - destruct l as [|x l]; reflexivity.
  - induction l as [|x l IH]; simpl; [reflexivity|]. rewrite IH.
    unfold is_converted, outcome_status.
    destruct (truthy (error x)), (truthy (skipped x)); reflexivity.
Qed.

(** ** Claims about the batch response *)

(** C8: in every [/convert] response, [zipDownloadUrl] is
    [/download-zip/{session}] exactly when at least one entry of [fileSizes]
    has status Converted, and the empty string exactly when none has (all
    Skipped or Failed). *)
Theorem zip_url_iff_converted w header stamp files s urls zip sizes :
  fst (convert w header stamp files s) = Ok (ConvertOk urls zip sizes) ->
  (zip = "/download-zip/" +++ resolve_session header stamp <->
     exists f, In f sizes /\ outcome_status f = Converted) /\
  (zip = "" <-> forall f, In f sizes -> outcome_status f <> Converted).
Proof.
  intro H. destruct (convert_run _ _ _ _ _ _ _ _ H) as (_ & _ & ->).
  rewrite zipDownloadUrl_of_converted.
  assert (Hex : existsb is_converted sizes = true <->
                exists f, In f sizes /\ outcome_status f = Converted).
  { rewrite existsb_exists. unfold is_converted.
    split; intros (f & Hin & Hf); exists f; split; auto;
      destruct (outcome_status f); congruence. }
  destruct (existsb is_converted sizes) eqn:E.
  - split; split; intros Hz.
    + apply Hex; reflexivity.
    + reflexivity.
    + discriminate.
    + exfalso. destruct (proj1 Hex eq_refl) as (f & Hin & Hf). exact (Hz f Hin Hf).
  - split; split; intros Hz.
    + discriminate.
    + apply Hex in Hz. discriminate.
    + intros f Hin Hf. assert (false = true) by (apply Hex; eauto). discriminate.
    + reflexivity.
Qed.

Lemma zip_url_iff_converted_witness :
  fst (convert sample_world (Some "s") "0" sample_batch sample_state)
    = Ok (ConvertOk ["/download/s/a.webp"; ""] "/download-zip/s" sample_sizes) /\
  (("/download-zip/s" = "/download-zip/" +++ resolve_session (Some "s") "0" <->
     exists f, In f sample_sizes /\ outcome_status f = Converted) /\
   ("/download-zip/s" = "" <-> forall f, In f sample_sizes -> outcome_status f <> Converted)).
Proof.
  split; [reflexivity|].
  apply (zip_url_iff_converted sample_world (Some "s") "0" sample_batch sample_state
           ["/download/s/a.webp"; ""]).
  reflexivity.
Defined.

(** C10: in every [/convert] response the entries come in per-file groups,
    aligned between [fileSizes] and [downloadUrls] and in input order; every
    entry of a file's group with status Failed carries [error: true], has
    [originalSize] and [convertedSize] equal to the file's declared
    [file.size] (not the size measured on disk), and its [downloadUrls]
    entry is the empty string. *)
Theorem failed_outcome_declared_size w header stamp files s urls zip sizes :
  fst (convert w header stamp files s) = Ok (ConvertOk urls zip sizes) ->
  exists chunks,
    sizes = concat (map (map fst) chunks) /\
    urls = concat (map (map snd) chunks) /\
    Forall2 (fun file ch =>
               Forall (fun p : FileSize * string =>
                         outcome_status (fst p) = Failed ->
                         error (fst p) = Some true /\ originalSize (fst p) = size file /\
                         convertedSize (fst p) = size file /\ snd p = "") ch)
            files chunks.
Proof.
  intro H. destruct (convert_run _ _ _ _ _ _ _ _ H) as (-> & -> & _).
  destruct (process_files_chunks w (resolve_session header stamp) files
              (set_downloadUrls [] (set_fileSizes [] s))) as (chs & H1 & H2 & H3).
  exists chs. rewrite H1, H2. simpl. split; [|split]; auto.
Qed.

Lemma failed_outcome_declared_size_witness :
  fst (convert sample_world (Some "s") "0" sample_batch sample_state)
    = Ok (ConvertOk ["/download/s/a.webp"; ""] "/download-zip/s" sample_sizes) /\
  exists chunks,
    sample_sizes = concat (map (map fst) chunks) /\
    ["/download/s/a.webp"; ""] = concat (map (map snd) chunks) /\
    Forall2 (fun file ch =>
               Forall (fun p : FileSize * string =>
                         outcome_status (fst p) = Failed ->
                         error (fst p) = Some true /\ originalSize (fst p) = size file /\
                         convertedSize (fst p) = size file /\ snd p = "") ch)
            sample_batch chunks.
Proof.
  split; [reflexivity|].
  apply (failed_outcome_declared_size sample_world (Some "s") "0" sample_batch sample_state
           ["/download/s/a.webp"; ""] "/download-zip/s").
  reflexivity.
Defined.

(** ** The quality search (C2, C3) *)

Lemma encodes_app t1 t2 : encodes (t1 ++ t2) = (encodes t1 + encodes t2)%nat.
Proof. induction t1 as [|[] t1 IH]; simpl; auto. Qed.

Lemma claimed_search_encodes orig out q a tr r :
  claimed_search orig out q a tr r -> 0 <= a <= 2 -> Z.of_nat (encodes tr) <= 4 - a.
Proof.
  induction 1; intros Ha;
    repeat match goal with H : claimed_fallback _ _ _ |- _ => inversion H; subst; clear H end;
    cbn [encodes]; rewrite ?Nat2Z.inj_succ;
    try match goal with IH : 0 <= _ <= 2 -> _ |- _ => specialize (IH ltac:(lia)) end;
    lia.
Qed.

Lemma add_name_mem n l : existsb (String.eqb n) (add_name n l) = true.
Proof.
  unfold add_name. destruct (existsb (String.eqb n) l) eqn:E; auto.
  rewrite existsb_app. simpl. rewrite String.eqb_refl. apply orb_true_r.
Qed.

Lemma trace_emit e s : trace (emit e s) = trace s ++ [e].
Proof. reflexivity. Qed.

Lemma trace_set_outputs o s : trace (set_outputs o s) = trace s.
Proof. reflexivity. Qed.

Lemma retry_false orig n q a :
  (orig <=? n) && (10 <? q) && (a <? 3) = false -> ~ (orig <= n /\ 10 < q /\ a < 3).
Proof.
  intros H (H1 & H2 & H3). apply Z.leb_le in H1. apply Z.ltb_lt in H2. apply Z.ltb_lt in H3.
  rewrite H1, H2, H3 in H. discriminate.
Qed.

Lemma retry_true orig n q a :
  (orig <=? n) && (10 <? q) && (a <? 3) = true -> orig <= n /\ 10 < q /\ a < 3.
Proof.
  intro H. apply andb_prop in H as [H H3]. apply andb_prop in H as [H1 H2].
  apply Z.leb_le in H1. apply Z.ltb_lt in H2. apply Z.ltb_lt in H3. auto.
Qed.

(** Every run of the [do ... while] loop produces the events of a
    [claimed_search]; a result not below the original is handed to the
    fallback. *)
Lemma webp_loop_search w fuel inp out orig q a s :
  0 <= a < 3 -> (Z.to_nat (2 - a) <= fuel)%nat ->
  exists tr, trace (snd (webp_loop w fuel inp out orig q a s)) = trace s ++ tr /\
    match fst (webp_loop w fuel inp out orig q a s) with
    | Ok n => if orig <=? n
              then forall tr' r', claimed_fallback out tr' r' ->
                                  claimed_search orig out q a (tr ++ tr') r'
              else claimed_search orig out q a tr (Ok n)
    | Err e => claimed_search orig out q a tr (Err e)
    end.
Proof.
  revert q a s. induction fuel as [|fuel IH]; intros q a s Ha Hf;
    cbn [webp_loop]; unfold maxAttempts, bind, encode_to_file;
    destruct (sharp_webp w inp q) as [n|e] eqn:Henc; cbv beta iota.
  2,4: exists [EEncode q (Err e)]; split; [reflexivity | constructor].
  all: set (s1 := emit (EEncode q (Ok n)) (set_outputs (add_name out (outputs s)) s)).
  all: destruct ((orig <=? n) && (10 <? q) && (a <? 3)) eqn:Hr.
  2,4: apply retry_false in Hr; destruct (n <? 512) eqn:Hsmall;
    [ exists [EEncode q (Ok n)]; split; [reflexivity|]; unfold throw; cbn [fst];
      apply cs_too_small; [exact Hr | apply Z.ltb_lt; exact Hsmall]
    | exists [EEncode q (Ok n)]; split; [reflexivity|]; unfold ret; cbn [fst];
      apply Z.ltb_ge in Hsmall;
      destruct (orig <=? n) eqn:Hle;
      [ apply Z.leb_le in Hle; intros tr' r' Hfb; eapply cs_floor; eauto
      | apply Z.leb_gt in Hle; apply cs_done; auto ] ].
  all: apply retry_true in Hr as (Hr1 & Hr2 & Hr3); unfold unlink_output;
    replace (existsb (String.eqb out) (outputs s1)) with true
      by (symmetry; apply add_name_mem);
    set (s2 := emit (EUnlinkOutput out) (set_outputs (remove_name out (outputs s1)) s1));
    cbv beta iota; destruct (a + 1 <? 3) eqn:Ha1.
  - apply Z.ltb_lt in Ha1. lia.
  - apply Z.ltb_ge in Ha1.
    exists [EEncode q (Ok n); EUnlinkOutput out];
    split; [simpl; rewrite <- app_assoc; reflexivity|]; unfold ret; cbn [fst].
    replace (orig <=? n) with true by (symmetry; apply Z.leb_le; exact Hr1).
    intros tr' r' Hfb. simpl. eapply cs_exhausted; eauto. lia.
  - apply Z.ltb_lt in Ha1.
    destruct (IH (q - 20) (a + 1) s2 ltac:(lia) ltac:(lia)) as (tr & Htr & Hres).
    exists (EEncode q (Ok n) :: EUnlinkOutput out :: tr). split.
    + rewrite Htr. simpl. rewrite <- !app_assoc. reflexivity.
    + destruct (fst (webp_loop w fuel inp out orig (q - 20) (a + 1) s2)) as [n'|e'].
      * destruct (orig <=? n').
        -- intros tr' r' Hfb. simpl. apply cs_retry; auto.
        -- apply cs_retry; auto.
      * apply cs_retry; auto.
  - apply Z.ltb_ge in Ha1.
    exists [EEncode q (Ok n); EUnlinkOutput out];
    split; [simpl; rewrite <- app_assoc; reflexivity|]; unfold ret; cbn [fst].
    replace (orig <=? n) with true by (symmetry; apply Z.leb_le; exact Hr1).
    intros tr' r' Hfb. simpl. eapply cs_exhausted; eauto. lia.
Qed.

(** C3: every run of [optimizeWebP] follows the quality search exactly:
    it starts at quality 50 when the source is already WebP and at 70
    otherwise; an attempt whose size is [>= originalSize] while
    [quality > 10] and [attempts < 3] is deleted and followed by an attempt
    at [quality - 20] with [attempts + 1]; when the search ends without a
    size below [originalSize], exactly one more encode at quality 20 follows
    and its outcome is what [optimizeWebP] returns; at most 4 encodes run. *)
Theorem quality_search_steps w inp out orig isWebP s :
  exists tr,
    trace (snd (optimizeWebP w inp out orig isWebP s)) = trace s ++ tr /\
    claimed_search orig out (if isWebP then 50 else 70) 0 tr
                   (fst (optimizeWebP w inp out orig isWebP s)) /\
    (encodes tr <= 4)%nat.
Proof.
  destruct (webp_loop_search w (Z.to_nat maxAttempts) inp out orig
              (if isWebP then 50 else 70) 0 s ltac:(lia) ltac:(cbv; lia))
    as (tr & Htr & Hres).
  assert (Hsearch : forall tr' r, claimed_search orig out (if isWebP then 50 else 70) 0 tr' r ->
                                  (encodes tr' <= 4)%nat).
  { intros tr' r H. apply claimed_search_encodes in H; lia. }
  unfold optimizeWebP, bind.
  destruct (webp_loop w (Z.to_nat maxAttempts) inp out orig (if isWebP then 50 else 70) 0 s)
    as [[n|e] s1]; cbn [fst snd] in *.
  - destruct (orig <=? n).
    + unfold encode_to_file.
      assert (Hfb : claimed_search orig out (if isWebP then 50 else 70) 0
                      (tr ++ [EEncode 20 (sharp_webp w inp 20)]) (sharp_webp w inp 20))
        by (apply Hres; constructor).
      exists (tr ++ [EEncode 20 (sharp_webp w inp 20)]).
      destruct (sharp_webp w inp 20) as [m|e]; cbn [fst snd];
        (split; [rewrite trace_emit; try rewrite trace_set_outputs; rewrite Htr, app_assoc; reflexivity
                | split; [exact Hfb | eapply Hsearch; exact Hfb]]).
    + exists tr. unfold ret; cbn [fst snd]. split; [exact Htr | split; [exact Hres | eapply Hsearch; exact Hres]].
  - exists tr. split; [exact Htr | split; [exact Hres | eapply Hsearch; exact Hres]].
Qed.

Lemma loop_too_small w fuel inp out orig q a n s :
  sharp_webp w inp q = Ok n -> n < 512 -> ~ (orig <= n /\ 10 < q /\ a < 3) ->
  fst (webp_loop w fuel inp out orig q a s) = Err "Converted file size too small".
Proof.
  intros Henc Hn Hr. destruct fuel; cbn [webp_loop]; unfold maxAttempts, bind, encode_to_file;
    rewrite Henc; cbv beta iota;
    (destruct ((orig <=? n) && (10 <? q) && (a <? 3)) eqn:E;
     [apply retry_true in E; contradiction|]);
    replace (n <? 512) with true by (symmetry; apply Z.ltb_lt; exact Hn); reflexivity.
Qed.

Lemma loop_retry w fuel inp out orig q a n s :
  sharp_webp w inp q = Ok n -> orig <= n /\ 10 < q /\ a < 3 ->
  webp_loop w (S fuel) inp out orig q a s =
  (if a + 1 <? 3 then webp_loop w fuel inp out orig (q - 20) (a + 1) (after_discard q n out s)
   else (Ok n, after_discard q n out s)).
Proof.
  intros Henc (H1 & H2 & H3). cbn [webp_loop]; unfold maxAttempts, bind, encode_to_file.
  rewrite Henc; cbv beta iota.
  replace ((orig <=? n) && (10 <? q) && (a <? 3)) with true
    by (apply Z.leb_le in H1; apply Z.ltb_lt in H2; apply Z.ltb_lt in H3;
        rewrite H1, H2, H3; reflexivity).
  unfold unlink_output.
  replace (existsb (String.eqb out)
             (outputs (emit (EEncode q (Ok n)) (set_outputs (add_name out (outputs s)) s))))
    with true by (symmetry; apply add_name_mem).
  destruct (a + 1 <? 3); reflexivity.
Qed.

Lemma fallback_result w inp out orig (isWebP : bool) s c :
  fst (webp_loop w (Z.to_nat maxAttempts) inp out orig (if isWebP then 50 else 70) 0 s) = Ok c ->
  orig <= c ->
  fst (optimizeWebP w inp out orig isWebP s) = sharp_webp w inp 20.
Proof.
  intros H Hc. unfold optimizeWebP, bind.
  destruct (webp_loop w _ inp out orig _ 0 s) as [[n|e] s1]; cbn [fst] in H; [|discriminate].
  injection H as ->. replace (orig <=? c) with true by (symmetry; apply Z.leb_le; exact Hc).
  unfold encode_to_file. destruct (sharp_webp w inp 20); reflexivity.
Qed.

Lemma stat_upload_state p s n s' : stat_upload p s = (Ok n, s') -> s' = s.
Proof. unfold stat_upload. destruct find as [[]|]; congruence. Qed.

(** A file whose transcoding rejects with [m]: one Failed entry carrying
    [m] and the declared size, and an empty link. *)
Lemma process_file_err w sid f s orig m s2 :
  stat_upload (path f) s = (Ok orig, s) ->
  optimizeWebP w (path f) (outputFilename (originalname f)) orig
               (String.eqb (mimetype f) "image/webp") s = (Err m, s2) ->
  fileSizes (snd (process_file w sid f s)) =
    fileSizes s ++ [mkFileSize (originalname f) (size f) (size f) None (Some true) (Some m)] /\
  downloadUrls (snd (process_file w sid f s)) = downloadUrls s ++ [""].
Proof.
  intros Hstat Hopt.
  pose proof (keeps_optimizeWebP w (path f) (outputFilename (originalname f)) orig
                (String.eqb (mimetype f) "image/webp") s) as [K1 K2].
  rewrite Hopt in K1, K2. cbn [snd] in K1, K2.
  unfold process_file, try_catch, bind. rewrite Hstat. cbv beta iota.
  rewrite Hopt. cbv beta iota. cbn [console_error push_fileSize push_url].
  match goal with |- context [unlink_upload w (path f) ?st] =>
    pose proof (keeps_unlink_upload w (path f) st) as [K3 K4];
    destruct (unlink_upload w (path f) st) as [[[]|e] s3] end;
    cbn [snd fst] in *; simpl in K3, K4 |- *; rewrite K3, K4, K1, K2; auto.
Qed.

(** C2 (as amended): an attempt under 512 bytes fails the search with
    "Converted file size too small" only when the retry condition
    ([size >= originalSize], [quality > 10], [attempts < 3]) does not hold;
    when it holds, the output is deleted and the search goes on as for any
    other attempt.  The fallback encode at quality 20 has no minimum-size
    check: its size is returned whatever it is.  A file whose search
    rejects this way gets one Failed entry carrying the message and an
    empty link. *)
Theorem too_small_fails_unless_retried w inp out orig :
  (forall fuel q a n s,
     sharp_webp w inp q = Ok n -> n < 512 -> ~ (orig <= n /\ 10 < q /\ a < 3) ->
     fst (webp_loop w fuel inp out orig q a s) = Err "Converted file size too small") /\
  (forall fuel q a n s,
     sharp_webp w inp q = Ok n -> n < 512 -> orig <= n /\ 10 < q /\ a < 3 ->
     webp_loop w (S fuel) inp out orig q a s =
     (if a + 1 <? 3 then webp_loop w fuel inp out orig (q - 20) (a + 1) (after_discard q n out s)
      else (Ok n, after_discard q n out s))) /\
  (forall (isWebP : bool) s c,
     fst (webp_loop w (Z.to_nat maxAttempts) inp out orig (if isWebP then 50 else 70) 0 s) = Ok c ->
     orig <= c ->
     fst (optimizeWebP w inp out orig isWebP s) = sharp_webp w inp 20) /\
  (forall sid f s s2,
     path f = inp -> out = outputFilename (originalname f) ->
     stat_upload (path f) s = (Ok orig, s) ->
     optimizeWebP w (path f) out orig (String.eqb (mimetype f) "image/webp") s =
       (Err "Converted file size too small", s2) ->
     fileSizes (snd (process_file w sid f s)) =
       fileSizes s ++ [mkFileSize (originalname f) (size f) (size f) None (Some true)
                                  (Some "Converted file size too small")] /\
     downloadUrls (snd (process_file w sid f s)) = downloadUrls s ++ [""]).
Proof.
  split; [|split; [|split]].
  - intros. eapply loop_too_small; eauto.
  - intros fuel q a n s Henc _ Hr. apply loop_retry; auto.
  - intros isWebP s c H Hc. eapply fallback_result; eauto.
  - intros sid f s s2 <- -> Hstat Hopt. eapply process_file_err; eauto.
Qed.

Lemma too_small_fails_unless_retried_witness :
  (sharp_webp tiny_world "uploads/t" 70 = Ok 300 /\ 300 < 512 /\
   ~ (1000 <= 300 /\ 10 < 70 /\ 0 < 3)) /\
  fst (webp_loop tiny_world 3 "uploads/t" "tiny.webp" 1000 70 0 tiny_state)
    = Err "Converted file size too small".
Proof.
  split; [split; [reflexivity | split; [lia | lia]]|].
  apply (proj1 (too_small_fails_unless_retried tiny_world "uploads/t" "tiny.webp" 1000)
           3%nat 70 0 300 tiny_state); [reflexivity | lia | lia].
Defined.

(** C2 as stated fails: every encode of the 200-byte [tiny.jpg] yields 300
    bytes, below 512, yet the file is Skipped, not Failed: each attempt is
    retried because 300 is not below 200, and the fallback result is
    accepted. *)
Lemma too_small_not_failed_cex :
  convert tiny_world (Some "s") "0" [tiny_file] tiny_state =
  (Ok (ConvertOk [""] "" [mkFileSize "tiny.jpg" 200 200 (Some true) None None]),
   mkSt [] [] [mkFileSize "tiny.jpg" 200 200 (Some true) None None] [""]
        [EEncode 70 (Ok 300); EUnlinkOutput "tiny.webp";
         EEncode 50 (Ok 300); EUnlinkOutput "tiny.webp";
         EEncode 30 (Ok 300); EUnlinkOutput "tiny.webp";
         EEncode 20 (Ok 300); EUnlinkOutput "tiny.webp";
         EUnlinkUpload "uploads/t" true]) /\
  outcome_status (mkFileSize "tiny.jpg" 200 200 (Some true) None None) = Skipped.
Proof. split; reflexivity. Qed.

Lemma unlink_upload_outputs w p s : outputs (snd (unlink_upload w p s)) = outputs s.
Proof. unfold unlink_upload; destruct (unlink_fault w p); [|destruct existsb]; reflexivity. Qed.

Lemma optimizeWebP_output_present w inp out orig isWebP s cs s2 :
  optimizeWebP w inp out orig isWebP s = (Ok cs, s2) -> orig <= cs ->
  existsb (String.eqb out) (outputs s2) = true.
Proof.
  intros H Hc. unfold optimizeWebP, bind in H.
  destruct (webp_loop w _ inp out orig _ 0 s) as [[n|e] s1]; [|discriminate].
  destruct (orig <=? n) eqn:Hle.
  - unfold encode_to_file in H. destruct (sharp_webp w inp 20); [|discriminate].
    injection H as _ <-. apply add_name_mem.
  - unfold ret in H. injection H as -> _. apply Z.leb_gt in Hle. lia.
Qed.

Lemma not_in_remove_name n l : ~ In n (remove_name n l).
Proof.
  unfold remove_name. rewrite filter_In. intros [_ H].
  rewrite String.eqb_refl in H. discriminate.
Qed.

Ltac upload_cleanup w f :=
  match goal with |- context [unlink_upload w (path f) ?st] =>
    let U1 := fresh "U" in let U2 := fresh "U" in let U3 := fresh "U" in
    pose proof (keeps_unlink_upload w (path f) st) as [U1 U2];
    pose proof (unlink_upload_outputs w (path f) st) as U3;
    destruct (unlink_upload w (path f) st) as [[[]|?e] ?s]; cbn [fst snd] in U1, U2, U3
  end.

Ltac rw_state :=
  repeat match goal with
  | H : fileSizes ?x = _ |- context [fileSizes ?x] => is_var x; rewrite H
  | H : downloadUrls ?x = _ |- context [downloadUrls ?x] => is_var x; rewrite H
  | H : outputs ?x = _ |- context [outputs ?x] => is_var x; rewrite H
  end.

(** C4: once the upload's size [orig] has been measured and [optimizeWebP]
    has returned [cs], the entry [/convert] records for the file is:
    Skipped, with [convertedSize = orig], an empty link, and the output
    deleted from the session directory, when [cs >= orig]; otherwise
    Converted, with [convertedSize = cs < orig] and the link
    [/download/{session}/{basename}.webp].  (The only entry that may follow
    it for the same file is a Failed one due to the upload's cleanup.) *)
Theorem skip_or_convert_decision w sid f s orig cs s2 :
  stat_upload (path f) s = (Ok orig, s) ->
  optimizeWebP w (path f) (outputFilename (originalname f)) orig
               (String.eqb (mimetype f) "image/webp") s = (Ok cs, s2) ->
  let s' := snd (process_file w sid f s) in
  let extra rest urest :=
    (rest = [] /\ urest = []) \/
    (exists e, rest = [mkFileSize (originalname f) (size f) (size f) None (Some true) (Some e)] /\
               urest = [""]) in
  if orig <=? cs then
    (exists rest urest,
       fileSizes s' = fileSizes s ++ mkFileSize (originalname f) orig orig (Some true) None None :: rest /\
       downloadUrls s' = downloadUrls s ++ "" :: urest /\ extra rest urest) /\
    ~ In (outputFilename (originalname f)) (outputs s')
  else
    cs < orig /\
    (exists rest urest,
       fileSizes s' = fileSizes s ++ mkFileSize (originalname f) orig cs None None None :: rest /\
       downloadUrls s' =
         downloadUrls s ++ ("/download/" +++ sid +++ "/" +++ outputFilename (originalname f)) :: urest /\
       extra rest urest).
Proof.
  intros Hstat Hopt s' extra. subst s' extra.
  pose proof (keeps_optimizeWebP w (path f) (outputFilename (originalname f)) orig
                (String.eqb (mimetype f) "image/webp") s) as [K1 K2].
  rewrite Hopt in K1, K2. cbn [snd] in K1, K2.
  unfold process_file, try_catch, bind. rewrite Hstat. cbv beta iota.
  rewrite Hopt. cbv beta iota.
  destruct (orig <=? cs) eqn:Hle.
  - apply Z.leb_le in Hle.
    unfold unlink_output. rewrite (optimizeWebP_output_present _ _ _ _ _ _ _ _ Hopt Hle).
    cbv beta iota. cbn [push_fileSize push_url].
    upload_cleanup w f;
      [| cbv beta iota; cbn [console_error push_fileSize push_url]; upload_cleanup w f];
      simpl in *; rw_state;
      (split; [| apply not_in_remove_name]).
    + exists [], []. repeat rewrite <- app_assoc. auto.
    + eexists [_], [""]. repeat rewrite <- app_assoc. split; [reflexivity | split; [reflexivity|]].
      right. eauto.
    + eexists [_], [""]. repeat rewrite <- app_assoc. split; [reflexivity | split; [reflexivity|]].
      right. eauto.
  - apply Z.leb_gt in Hle. split; [exact Hle|].
    cbn [push_fileSize push_url].
    upload_cleanup w f;
      [| cbv beta iota; cbn [console_error push_fileSize push_url]; upload_cleanup w f];
      simpl in *; rw_state.
    + exists [], []. repeat rewrite <- app_assoc. auto.
    + eexists [_], [""]. repeat rewrite <- app_assoc. split; [reflexivity | split; [reflexivity|]].
      right. eauto.
    + eexists [_], [""]. repeat rewrite <- app_assoc. split; [reflexivity | split; [reflexivity|]].
      right. eauto.
Qed.

Lemma skip_or_convert_decision_witness :
  (stat_upload (path photo_file) photo_state = (Ok 1000000, photo_state) /\
   optimizeWebP (const_world 400000) (path photo_file) (outputFilename (originalname photo_file))
     1000000 (String.eqb (mimetype photo_file) "image/webp") photo_state
   = (Ok 400000, mkSt [("uploads/a", 1000000)] ["name.webp"] [] [] [EEncode 70 (Ok 400000)])) /\
  (let f := photo_file in let s := photo_state in let orig := 1000000 in let cs := 400000 in
   let s' := snd (process_file (const_world 400000) "s" f s) in
   let extra rest urest :=
     (rest = [] /\ urest = []) \/
     (exists e, rest = [mkFileSize (originalname f) (size f) (size f) None (Some true) (Some e)] /\
                urest = [""]) in
   if orig <=? cs then
     (exists rest urest,
        fileSizes s' = fileSizes s ++ mkFileSize (originalname f) orig orig (Some true) None None :: rest /\
        downloadUrls s' = downloadUrls s ++ "" :: urest /\ extra rest urest) /\
     ~ In (outputFilename (originalname f)) (outputs s')
   else
     cs < orig /\
     (exists rest urest,
        fileSizes s' = fileSizes s ++ mkFileSize (originalname f) orig cs None None None :: rest /\
        downloadUrls s' =
          downloadUrls s ++ ("/download/" +++ "s" +++ "/" +++ outputFilename (originalname f)) :: urest /\
        extra rest urest)).
Proof.
  split; [split; reflexivity|].
  exact (skip_or_convert_decision (const_world 400000) "s" photo_file photo_state 1000000 400000
           (mkSt [("uploads/a", 1000000)] ["name.webp"] [] [] [EEncode 70 (Ok 400000)])
           eq_refl eq_refl).
Defined.

(** ** Defects *)

(** C1: a file whose first encode is too small ends Failed, yet its
    degenerate output [name.webp] stays in the session directory. *)
Lemma too_small_output_left_behind :
  let r := convert (const_world 300) (Some "s") "0" [jpeg_file "name.jpg" "uploads/a" 1000]
                   (empty_state [("uploads/a", 1000)]) in
  fst r = Ok (ConvertOk [""] ""
                [mkFileSize "name.jpg" 1000 1000 None (Some true)
                            (Some "Converted file size too small")]) /\
  outputs (snd r) = ["name.webp"].
Proof. split; reflexivity. Qed.

(** C7: one uploaded file, converted, whose upload cleanup fails: the
    response has two entries for it, a Converted one and a Failed one. *)
Lemma cleanup_failure_duplicates_outcome :
  fst (convert busy_world (Some "s") "0" [photo_file] photo_state) =
  Ok (ConvertOk ["/download/s/name.webp"; ""] "/download-zip/s"
        [mkFileSize "name.jpg" 1000000 300000 None None None;
         mkFileSize "name.jpg" 1000000 1000000 None (Some true) (Some busy_msg)]).
Proof. reflexivity. Qed.

(** C9: on the same input the upload's unlink is attempted twice, the first
    failure reaches the response as a Failed entry, and the upload stays. *)
Lemma cleanup_failure_propagates :
  let r := convert busy_world (Some "s") "0" [photo_file] photo_state in
  trace (snd r) =
    [EEncode 70 (Ok 300000); EUnlinkUpload "uploads/a" false;
     EConsoleError ("Error processing name.jpg: " +++ busy_msg);
     EUnlinkUpload "uploads/a" false;
     EConsoleError ("Cleanup failed: " +++ busy_msg)] /\
  uploads (snd r) = [("uploads/a", 1000000)] /\
  In (mkFileSize "name.jpg" 1000000 1000000 None (Some true) (Some busy_msg)) (fileSizes (snd r)).
Proof. split; [reflexivity | split; [reflexivity | simpl; auto]]. Qed.

(** C5: a session with no directory gets a 500 "Failed to create ZIP"
    response; only an existing, empty directory gets the 404. *)
Theorem missing_session_dir_is_500 session a d :
  fst (download_zip session (mkZipEnv None a d)) =
    ZipJson 500 ("Failed to create ZIP: " +++ enoent "scandir" ("public/" +++ session)) /\
  fst (download_zip session (mkZipEnv (Some []) a d)) = ZipJson 404 "No files available to zip".
Proof. split; reflexivity. Qed.

(** C6: the transient [{session}.zip] created by [fs.createWriteStream] is
    not deleted on every exit path.  When the archiver fails, the catch
    block answers 500 and the zip stays; when the delivery fails after the
    transfer has started, the callback's [res.status(500).json(...)] throws
    before the unlink, and the zip stays too.  It is deleted, if its unlink
    succeeds, only after a delivery or an error before the headers. *)
Theorem archive_error_leaves_zip session x files m d :
  download_zip session (mkZipEnv (Some (x :: files)) (Some m) d) =
    (ZipJson 500 ("Failed to create ZIP: " +++ m), true) /\
  (forall msg u,
     download_zip session
       (mkZipEnv (Some (x :: files)) None (mkDelivery (Some (mkDeliveryError true msg)) u)) =
     (ZipInterrupted, true)) /\
  (forall de, match de with Some e => after_headers e = false | None => True end ->
     snd (download_zip session (mkZipEnv (Some (x :: files)) None (mkDelivery de None))) = false).
Proof.
  split; [reflexivity|]. split; [reflexivity|].
  intros [[[] dm]|] H; cbn in H; [discriminate H | reflexivity | reflexivity].
Qed.

(** ** Frame reasoning over a preorder on states *)

Section Preserves.
Variable R : St -> St -> Prop.
Hypothesis R_refl : forall s, R s s.
Hypothesis R_trans : forall s1 s2 s3, R s1 s2 -> R s2 s3 -> R s1 s3.

Lemma pres_ret {A} (a : A) : preserves R (ret a).
Proof. intro s; apply R_refl. Qed.

Lemma pres_throw {A} m : preserves R (@throw A m).
Proof. intro s; apply R_refl. Qed.

Lemma pres_bind {A B} (m : M A) (k : A -> M B) :
  preserves R m -> (forall a, preserves R (k a)) -> preserves R (bind m k).
Proof.
  intros Hm Hk s. unfold bind. specialize (Hm s).
  destruct (m s) as [[a|e] s'] eqn:E; simpl in *; [eapply R_trans; [exact Hm | apply Hk] | exact Hm].
Qed.

Lemma pres_try {A} (m : M A) h :
  preserves R m -> (forall e, preserves R (h e)) -> preserves R (try_catch m h).
Proof.
  intros Hm Hh s. unfold try_catch. specialize (Hm s).
  destruct (m s) as [[a|e] s'] eqn:E; simpl in *; [exact Hm | eapply R_trans; [exact Hm | apply Hh]].
Qed.

Lemma pres_if {A} (b : bool) (m1 m2 : M A) :
  preserves R m1 -> preserves R m2 -> preserves R (if b then m1 else m2).
Proof. destruct b; auto. Qed.

Lemma pres_get_state : preserves R get_state.
Proof. intro s; apply R_refl. Qed.

End Preserves.

Create HintDb pres.

Lemma same_uploads_refl s : same_uploads s s.
Proof. reflexivity. Qed.
Lemma same_uploads_trans s1 s2 s3 : same_uploads s1 s2 -> same_uploads s2 s3 -> same_uploads s1 s3.
Proof. unfold same_uploads; congruence. Qed.
Lemma no_new_uploads_refl s : no_new_uploads s s.
Proof. intros p H; exact H. Qed.
Lemma no_new_uploads_trans s1 s2 s3 :
  no_new_uploads s1 s2 -> no_new_uploads s2 s3 -> no_new_uploads s1 s3.
Proof. unfold no_new_uploads; auto. Qed.
Lemma only_outputs_refl N s : only_outputs N s s.
Proof. intros n _; reflexivity. Qed.
Lemma only_outputs_trans N s1 s2 s3 :
  only_outputs N s1 s2 -> only_outputs N s2 s3 -> only_outputs N s1 s3.
Proof. unfold only_outputs; intros H1 H2 n Hn; rewrite H2, H1; auto. Qed.
Lemma same_outputs_refl s : same_outputs s s.
Proof. reflexivity. Qed.
Lemma same_outputs_trans s1 s2 s3 : same_outputs s1 s2 -> same_outputs s2 s3 -> same_outputs s1 s3.
Proof. unfold same_outputs; congruence. Qed.

Lemma upload_unlinks_app t1 t2 :
  upload_unlinks (t1 ++ t2) = (upload_unlinks t1 + upload_unlinks t2)%nat.
Proof. induction t1 as [|[] t1 IH]; simpl; auto. Qed.

Lemma no_upload_unlink_refl s : no_upload_unlink s s.
Proof. exists []. rewrite app_nil_r. auto. Qed.
Lemma no_upload_unlink_trans s1 s2 s3 :
  no_upload_unlink s1 s2 -> no_upload_unlink s2 s3 -> no_upload_unlink s1 s3.
Proof.
  intros (t1 & H1 & C1) (t2 & H2 & C2). exists (t1 ++ t2).
  rewrite H2, H1, app_assoc, upload_unlinks_app, C1, C2. auto.
Qed.

#[export] Hint Resolve same_uploads_refl same_uploads_trans no_new_uploads_refl
  no_new_uploads_trans only_outputs_refl only_outputs_trans same_outputs_refl
  same_outputs_trans no_upload_unlink_refl no_upload_unlink_trans : pres.

Lemma pres_weaken (R R' : St -> St -> Prop) {A} (m : M A) :
  (forall s s', R s s' -> R' s s') -> preserves R m -> preserves R' m.
Proof. intros H Hm s. apply H, Hm. Qed.

Lemma same_uploads_no_new s s' : same_uploads s s' -> no_new_uploads s s'.
Proof. unfold same_uploads, no_new_uploads, upload_present. intros -> p H; exact H. Qed.

Lemma same_outputs_only N s s' : same_outputs s s' -> only_outputs N s s'.
Proof. unfold same_outputs, only_outputs. intros -> n _; reflexivity. Qed.

Lemma only_outputs_incl N N' s s' :
  incl N N' -> only_outputs N s s' -> only_outputs N' s s'.
Proof. intros Hi H n Hn. apply H. intro Hin. apply Hn, Hi, Hin. Qed.

(** The primitive operations. *)

Lemma mem_add_name n out l : n <> out -> mem n (add_name out l) = mem n l.
Proof.
  intro Hn. unfold add_name, mem. destruct (existsb (String.eqb out) l); auto.
  rewrite existsb_app. simpl. apply String.eqb_neq in Hn. rewrite Hn. simpl.
  apply orb_false_r.
Qed.

Lemma mem_remove_name n out l : n <> out -> mem n (remove_name out l) = mem n l.
Proof.
  intro Hn. unfold remove_name, mem. induction l as [|x l IH]; simpl; auto.
  destruct (String.eqb x out) eqn:Ex; simpl.
  - apply String.eqb_eq in Ex; subst x. apply String.eqb_neq in Hn. rewrite Hn. auto.
  - rewrite IH. auto.
Qed.

Lemma pres_encode_uploads w inp q out : preserves same_uploads (encode_to_file w inp q out).
Proof. intro s; unfold encode_to_file; destruct (sharp_webp w inp q); reflexivity. Qed.
Lemma pres_encode_outputs w inp q out N :
  In out N -> preserves (only_outputs N) (encode_to_file w inp q out).
Proof.
  intros Hin s; unfold encode_to_file; destruct (sharp_webp w inp q); intros n Hn; simpl; auto.
  apply mem_add_name. intros ->. contradiction.
Qed.
Lemma pres_encode_trace w inp q out : preserves no_upload_unlink (encode_to_file w inp q out).
Proof. intro s; unfold encode_to_file; destruct (sharp_webp w inp q); eexists; split; reflexivity. Qed.

Lemma pres_unlink_output_uploads out : preserves same_uploads (unlink_output out).
Proof. intro s; unfold unlink_output; destruct existsb; reflexivity. Qed.
Lemma pres_unlink_output_outputs out N :
  In out N -> preserves (only_outputs N) (unlink_output out).
Proof.
  intros Hin s; unfold unlink_output; destruct existsb; intros n Hn; simpl; auto.
  apply mem_remove_name. intros ->. contradiction.
Qed.
Lemma pres_unlink_output_trace out : preserves no_upload_unlink (unlink_output out).
Proof.
  intro s; unfold unlink_output; destruct existsb; [eexists; split; reflexivity |].
  apply no_upload_unlink_refl.
Qed.

Lemma pres_unlink_upload_no_new w p : preserves no_new_uploads (unlink_upload w p).
Proof.
  intros s q; unfold unlink_upload, upload_present.
  destruct (unlink_fault w p); [auto|].
  destruct (existsb (fun e => String.eqb (fst e) p) (uploads s)); simpl; auto.
  intro H. apply existsb_exists in H as (x & Hx & Hq). apply filter_In in Hx as [Hx _].
  apply existsb_exists. eauto.
Qed.
Lemma pres_unlink_upload_outputs w p : preserves same_outputs (unlink_upload w p).
Proof. intro s; apply unlink_upload_outputs. Qed.

Lemma pres_stat_uploads p : preserves same_uploads (stat_upload p).
Proof. intro s; unfold stat_upload; destruct find as [[]|]; reflexivity. Qed.
Lemma pres_stat_outputs p : preserves same_outputs (stat_upload p).
Proof. intro s; unfold stat_upload; destruct find as [[]|]; reflexivity. Qed.
Lemma pres_stat_trace p : preserves no_upload_unlink (stat_upload p).
Proof. intro s; unfold stat_upload; destruct find as [[]|]; apply no_upload_unlink_refl. Qed.

Lemma pres_console_uploads m : preserves same_uploads (console_error m).
Proof. intro s; reflexivity. Qed.
Lemma pres_console_outputs m : preserves same_outputs (console_error m).
Proof. intro s; reflexivity. Qed.
Lemma pres_console_trace m : preserves no_upload_unlink (console_error m).
Proof. intro s; eexists; split; reflexivity. Qed.

Lemma pres_push_fileSize_uploads e : preserves same_uploads (push_fileSize e).
Proof. intro s; reflexivity. Qed.
Lemma pres_push_fileSize_outputs e : preserves same_outputs (push_fileSize e).
Proof. intro s; reflexivity. Qed.
Lemma pres_push_url_uploads u : preserves same_uploads (push_url u).
Proof. intro s; reflexivity. Qed.
Lemma pres_push_url_outputs u : preserves same_outputs (push_url u).
Proof. intro s; reflexivity. Qed.

#[export] Hint Resolve pres_encode_uploads pres_encode_trace pres_unlink_output_uploads
  pres_unlink_output_trace pres_unlink_upload_no_new pres_unlink_upload_outputs
  pres_stat_uploads pres_stat_outputs pres_stat_trace pres_console_uploads
  pres_console_outputs pres_console_trace pres_push_fileSize_uploads
  pres_push_fileSize_outputs pres_push_url_uploads pres_push_url_outputs : pres.

Ltac pres :=
  repeat (intros; match goal with
  | |- preserves _ (match ?n with O => _ | S _ => _ end) => destruct n
  | |- preserves _ (bind _ _) => eapply pres_bind; [solve [eauto with pres] | |]
  | |- preserves _ (try_catch _ _) => eapply pres_try; [solve [eauto with pres] | |]
  | |- preserves _ (if _ then _ else _) => eapply pres_if
  | |- preserves _ (ret _) => eapply pres_ret; solve [eauto with pres]
  | |- preserves _ (throw _) => eapply pres_throw; solve [eauto with pres]
  | |- preserves _ get_state => eapply pres_get_state; solve [eauto with pres]
  | |- preserves no_new_uploads _ =>
      solve [eauto with pres | eapply pres_weaken; [exact same_uploads_no_new | solve [eauto with pres]]]
  | |- preserves (only_outputs _) _ =>
      solve [eauto with pres | eapply pres_weaken; [apply same_outputs_only | solve [eauto with pres]]]
  | _ => solve [eauto with pres]
  end).

Lemma pres_webp_loop_uploads w fuel inp out orig q a :
  preserves same_uploads (webp_loop w fuel inp out orig q a).
Proof. revert q a; induction fuel; intros; simpl; pres. Qed.
Lemma pres_webp_loop_trace w fuel inp out orig q a :
  preserves no_upload_unlink (webp_loop w fuel inp out orig q a).
Proof. revert q a; induction fuel; intros; simpl; pres. Qed.
Lemma pres_webp_loop_outputs w fuel inp out orig q a N :
  In out N -> preserves (only_outputs N) (webp_loop w fuel inp out orig q a).
Proof.
  intro Hin. revert q a; induction fuel; intros; simpl; pres;
    first [apply pres_encode_outputs | apply pres_unlink_output_outputs]; exact Hin.
Qed.

Lemma pres_optimizeWebP_uploads w inp out orig isWebP :
  preserves same_uploads (optimizeWebP w inp out orig isWebP).
Proof. unfold optimizeWebP; pres; apply pres_webp_loop_uploads. Qed.
Lemma pres_optimizeWebP_trace w inp out orig isWebP :
  preserves no_upload_unlink (optimizeWebP w inp out orig isWebP).
Proof. unfold optimizeWebP; pres; apply pres_webp_loop_trace. Qed.
Lemma pres_optimizeWebP_outputs w inp out orig isWebP N :
  In out N -> preserves (only_outputs N) (optimizeWebP w inp out orig isWebP).
Proof.
  intro Hin. unfold optimizeWebP. eapply pres_bind; [eauto with pres | apply pres_webp_loop_outputs, Hin |].
  intro n. apply pres_if; [apply pres_encode_outputs, Hin | apply pres_ret; eauto with pres].
Qed.

#[export] Hint Resolve pres_optimizeWebP_uploads pres_optimizeWebP_trace : pres.

(** A result the loop returns is either not below the original (and goes
    to the fallback) or the size of an output still in the directory. *)
Lemma webp_loop_present w fuel inp out orig q a s :
  match webp_loop w fuel inp out orig q a s with
  | (Ok n, s') => orig <= n \/ mem out (outputs s') = true
  | (Err _, _) => True
  end.
Proof.
  revert q a s; induction fuel as [|fuel IH]; intros q a s;
    cbn [webp_loop]; unfold maxAttempts, bind, encode_to_file;
    destruct (sharp_webp w inp q) as [n|e]; cbv beta iota; auto;
    (destruct ((orig <=? n) && (10 <? q) && (a <? 3)) eqn:Hr;
     [ apply retry_true in Hr as (Hr1 & _ & _); unfold unlink_output;
       replace (existsb (String.eqb out)
                  (outputs (emit (EEncode q (Ok n)) (set_outputs (add_name out (outputs s)) s))))
         with true by (symmetry; apply add_name_mem);
       cbv beta iota; destruct (a + 1 <? 3); cbv beta iota; [try apply IH | ]
     | destruct (n <? 512); [exact I | right; apply add_name_mem] ]).
  all: left; exact Hr1.
Qed.

(** [optimizeWebP] resolves only when its output is in the directory. *)
Lemma optimizeWebP_present w inp out orig isWebP s cs s2 :
  optimizeWebP w inp out orig isWebP s = (Ok cs, s2) -> mem out (outputs s2) = true.
Proof.
  intro H. unfold optimizeWebP, bind in H.
  pose proof (webp_loop_present w (Z.to_nat maxAttempts) inp out orig
                (if isWebP then 50 else 70) 0 s) as Hp.
  destruct (webp_loop w _ inp out orig _ 0 s) as [[n|e] s1]; [|discriminate].
  destruct (orig <=? n) eqn:Hle.
  - unfold encode_to_file in H. destruct (sharp_webp w inp 20); [|discriminate].
    injection H as _ <-. apply add_name_mem.
  - unfold ret in H. injection H as -> <-. apply Z.leb_gt in Hle.
    destruct Hp as [Hp|Hp]; [lia | exact Hp].
Qed.

Lemma pres_process_file_uploads w sid f : preserves no_new_uploads (process_file w sid f).
Proof. unfold process_file; pres. Qed.

Lemma pres_process_file_outputs w sid f N :
  In (outputFilename (originalname f)) N -> preserves (only_outputs N) (process_file w sid f).
Proof.
  intro Hin. unfold process_file; pres;
    first [apply pres_optimizeWebP_outputs | apply pres_unlink_output_outputs]; exact Hin.
Qed.

Lemma stat_upload_keeps p s : snd (stat_upload p s) = s.
Proof. unfold stat_upload; destruct find as [[]|]; reflexivity. Qed.

Lemma stat_upload_present p s n s' : stat_upload p s = (Ok n, s') -> upload_present p s = true.
Proof.
  unfold stat_upload, upload_present.
  destruct (find (fun e => String.eqb (fst e) p) (uploads s)) as [[k v]|] eqn:E; [|discriminate].
  intros _. apply find_some in E as [Hin Heq]. apply existsb_exists. eauto.
Qed.

Lemma stat_upload_absent p s m s' : stat_upload p s = (Err m, s') -> upload_present p s = false.
Proof.
  unfold stat_upload, upload_present.
  destruct (find (fun e => String.eqb (fst e) p) (uploads s)) as [[k v]|] eqn:E; [discriminate|].
  intros _. apply not_true_is_false. intro H. apply existsb_exists in H as (x & Hx & Hq).
  eapply find_none in E; [|exact Hx]. congruence.
Qed.

Lemma unlink_upload_removes w p s :
  unlink_fault w p = None -> upload_present p s = true ->
  unlink_upload w p s =
  (Ok tt, emit (EUnlinkUpload p true)
               (set_uploads (filter (fun e => negb (String.eqb (fst e) p)) (uploads s)) s)).
Proof. unfold unlink_upload, upload_present. intros -> ->. reflexivity. Qed.

Lemma unlink_upload_missing w p s :
  unlink_fault w p = None -> upload_present p s = false ->
  unlink_upload w p s = (Err (enoent "unlink" p), emit (EUnlinkUpload p false) s).
Proof. unfold unlink_upload, upload_present. intros -> ->. reflexivity. Qed.

Lemma upload_present_removed p l s :
  upload_present p (set_uploads (filter (fun e => negb (String.eqb (fst e) p)) l) s) = false.
Proof.
  unfold upload_present; simpl. induction l as [|[k v] l IH]; simpl; auto.
  destruct (String.eqb k p) eqn:E; simpl; auto. rewrite E. exact IH.
Qed.

Ltac links_done :=
  first
  [ left; solve [ exists 1%nat; repeat rewrite <- app_assoc; reflexivity
                | exists 2%nat; repeat rewrite <- app_assoc; reflexivity ]
  | right; solve [ exists 0%nat; repeat rewrite <- app_assoc; split; [reflexivity | assumption]
                 | exists 1%nat; repeat rewrite <- app_assoc; split; [reflexivity | assumption] ] ].

(** After a file is processed, the links recorded for it are empty, or the
    first is [/download/{session}/{basename}.webp] and that file is in the
    session directory. *)
Lemma process_file_link_cases w sid f s :
  let s' := snd (process_file w sid f s) in
  (exists k, downloadUrls s' = downloadUrls s ++ repeat "" k) \/
  (exists k, downloadUrls s' = downloadUrls s ++ link sid f :: repeat "" k /\
             mem (outputFilename (originalname f)) (outputs s') = true).
Proof.
  intro s'. subst s'. unfold process_file, try_catch, bind.
  pose proof (keeps_stat (path f) s) as [S1 S2].
  pose proof (stat_upload_keeps (path f) s) as S0.
  destruct (stat_upload (path f) s) as [[orig|m] s1]; cbn [snd] in S0, S1, S2; subst s1;
    cbv beta iota.
  - pose proof (keeps_optimizeWebP w (path f) (outputFilename (originalname f)) orig
                  (String.eqb (mimetype f) "image/webp") s) as [K1 K2].
    destruct (optimizeWebP w (path f) (outputFilename (originalname f)) orig
                (String.eqb (mimetype f) "image/webp") s) as [[cs|m] s2] eqn:Ho;
      cbn [snd] in K1, K2; cbv beta iota.
    + pose proof (optimizeWebP_present _ _ _ _ _ _ _ _ Ho) as Hp.
      destruct (orig <=? cs).
      * unfold unlink_output. unfold mem in Hp. rewrite Hp. cbv beta iota.
        cbn [push_fileSize push_url].
        upload_cleanup w f;
          [| cbv beta iota; cbn [console_error push_fileSize push_url]; upload_cleanup w f];
          simpl in *; rw_state; links_done.
      * cbn [push_fileSize push_url].
        upload_cleanup w f;
          [| cbv beta iota; cbn [console_error push_fileSize push_url]; upload_cleanup w f];
          simpl in *; rw_state; links_done.
    + cbn [console_error push_fileSize push_url]. upload_cleanup w f;
        simpl in *; rw_state; links_done.
  - cbn [console_error push_fileSize push_url]. upload_cleanup w f;
      simpl in *; rw_state; links_done.
Qed.

Ltac nofault_close T1 C1 :=
  split;
  [ do 2 eexists; split; [repeat rewrite <- app_assoc; reflexivity |
                          split; [repeat rewrite <- app_assoc; reflexivity | reflexivity]]
  | split;
    [ first [ apply upload_present_removed
            | unfold upload_present in *; simpl; congruence ]
    | rewrite ?T1; eexists; split;
      [ repeat rewrite <- app_assoc; reflexivity
      | rewrite ?upload_unlinks_app, ?C1; reflexivity ] ] ].

(** With no fault on its upload, a file gets exactly one entry and one
    link, and its upload is unlinked exactly once and is gone afterwards. *)
Lemma process_file_no_fault w sid f s :
  unlink_fault w (path f) = None ->
  let s' := snd (process_file w sid f s) in
  (exists e u, fileSizes s' = fileSizes s ++ [e] /\ downloadUrls s' = downloadUrls s ++ [u] /\
               originalName e = originalname f) /\
  upload_present (path f) s' = false /\
  exists tr, trace s' = trace s ++ tr /\ upload_unlinks tr = 1%nat.
Proof.
  intros Hf s'. subst s'. unfold process_file, try_catch, bind.
  pose proof (stat_upload_keeps (path f) s) as S0.
  destruct (stat_upload (path f) s) as [[orig|m] s1] eqn:Hs; cbn [snd] in S0; subst s1;
    cbv beta iota.
  - pose proof (stat_upload_present _ _ _ _ Hs) as Hpres.
    pose proof (keeps_optimizeWebP w (path f) (outputFilename (originalname f)) orig
                  (String.eqb (mimetype f) "image/webp") s) as [K1 K2].
    pose proof (pres_optimizeWebP_uploads w (path f) (outputFilename (originalname f)) orig
                  (String.eqb (mimetype f) "image/webp") s) as K3.
    pose proof (pres_optimizeWebP_trace w (path f) (outputFilename (originalname f)) orig
                  (String.eqb (mimetype f) "image/webp") s) as (t1 & T1 & C1).
    unfold same_uploads in K3.
    destruct (optimizeWebP w (path f) (outputFilename (originalname f)) orig
                (String.eqb (mimetype f) "image/webp") s) as [[cs|m] s2] eqn:Ho;
      cbn [snd] in K1, K2, K3, T1; cbv beta iota.
    + pose proof (optimizeWebP_present _ _ _ _ _ _ _ _ Ho) as Hp.
      destruct (orig <=? cs).
      * unfold unlink_output. unfold mem in Hp. rewrite Hp. cbv beta iota.
        cbn [push_fileSize push_url].
        rewrite unlink_upload_removes
          by (auto; unfold upload_present in *; simpl; congruence).
        simpl. rw_state. nofault_close T1 C1.
      * cbn [push_fileSize push_url].
        rewrite unlink_upload_removes
          by (auto; unfold upload_present in *; simpl; congruence).
        simpl. rw_state. nofault_close T1 C1.
    + cbn [console_error push_fileSize push_url].
      rewrite unlink_upload_removes
        by (auto; unfold upload_present in *; simpl; congruence).
      simpl. rw_state. nofault_close T1 C1.
  - pose proof (stat_upload_absent _ _ _ _ Hs) as Habs.
    cbn [console_error push_fileSize push_url].
    rewrite unlink_upload_missing
      by (auto; unfold upload_present in *; simpl; congruence).
    simpl. split;
    [ do 2 eexists; split; [reflexivity | split; [reflexivity | reflexivity]]
    | split; [unfold upload_present in *; simpl; exact Habs |
              eexists; split; [repeat rewrite <- app_assoc; reflexivity | reflexivity]]].
Qed.

(** ** The batch *)

Lemma convert_empty w h stamp s :
  convert w h stamp [] s = (Ok (ConvertError 400 "No files uploaded"), s).
Proof. reflexivity. Qed.

Lemma convert_fst w h stamp f fs s urls zip sizes :
  fst (convert w h stamp (f :: fs) s) = Ok (ConvertOk urls zip sizes) ->
  let s' := snd (process_files w (resolve_session h stamp) (f :: fs)
                  (set_downloadUrls [] (set_fileSizes [] s))) in
  urls = downloadUrls s' /\ sizes = fileSizes s' /\ snd (convert w h stamp (f :: fs) s) = s'.
Proof.
  intros H s'. subst s'.
  destruct (ensureDir_cases w ("public/" +++ resolve_session h stamp) s) as [He|[msg He]].
  - rewrite (convert_mkdir_ok w h stamp f fs s He) in H |- *. cbn [fst] in H.
    repeat split; congruence.
  - rewrite (convert_mkdir_err w h stamp f fs s msg He) in H. discriminate.
Qed.

(** The state after a non-empty batch: untouched when the session directory
    cannot be created, else the one the per-file loop leaves. *)
Lemma convert_snd w h stamp f fs s :
  snd (convert w h stamp (f :: fs) s) = s \/
  snd (convert w h stamp (f :: fs) s) =
  snd (process_files w (resolve_session h stamp) (f :: fs) (set_downloadUrls [] (set_fileSizes [] s))).
Proof.
  destruct (ensureDir_cases w ("public/" +++ resolve_session h stamp) s) as [He|[msg He]].
  - right. rewrite (convert_mkdir_ok w h stamp f fs s He). reflexivity.
  - left. rewrite (convert_mkdir_err w h stamp f fs s msg He). reflexivity.
Qed.

Lemma process_files_step w sid f fs s :
  snd (process_files w sid (f :: fs) s) = snd (process_files w sid fs (snd (process_file w sid f s))).
Proof.
  simpl. unfold bind. pose proof (process_file_ok w sid f s) as Hok.
  destruct (process_file w sid f s) as [r s1]; simpl in Hok; subst r. reflexivity.
Qed.

Lemma pres_process_files_uploads w sid files : preserves no_new_uploads (process_files w sid files).
Proof.
  induction files as [|f fs IH]; simpl; [apply pres_ret; eauto with pres|].
  eapply pres_bind; [eauto with pres | apply pres_process_file_uploads | intros; exact IH].
Qed.

Lemma pres_process_files_outputs w sid files N :
  incl (map out_name files) N -> preserves (only_outputs N) (process_files w sid files).
Proof.
  induction files as [|f fs IH]; simpl; intro Hi; [apply pres_ret; eauto with pres|].
  eapply pres_bind; [eauto with pres | apply pres_process_file_outputs | intros; apply IH].
  - apply Hi; left; reflexivity.
  - intros x Hx; apply Hi; right; exact Hx.
Qed.

Lemma process_files_no_fault w sid files s :
  (forall f, In f files -> unlink_fault w (path f) = None) ->
  let s' := snd (process_files w sid files s) in
  (exists es us, fileSizes s' = fileSizes s ++ es /\ downloadUrls s' = downloadUrls s ++ us /\
     map originalName es = map originalname files /\ length us = length files) /\
  forall f, In f files -> upload_present (path f) s' = false.
Proof.
  revert s; induction files as [|f fs IH]; intros s Hf s'; subst s'.
  - split; [exists [], []; rewrite !app_nil_r; auto | intros f []].
  - rewrite process_files_step.
    destruct (process_file_no_fault w sid f s (Hf f (or_introl eq_refl)))
      as ((e & u & H1 & H2 & H3) & H4 & _).
    destruct (IH (snd (process_file w sid f s)) (fun g Hg => Hf g (or_intror Hg)))
      as ((es & us & H5 & H6 & H7 & H8) & H9).
    split.
    + exists (e :: es), (u :: us). rewrite H5, H6, H1, H2, <- !app_assoc. simpl.
      rewrite H3, H7, H8. auto.
    + intros g [<-|Hg]; [|apply H9, Hg].
      apply not_true_is_false. intro Hp.
      apply (pres_process_files_uploads w sid fs (snd (process_file w sid f s))) in Hp.
      congruence.
Qed.

Lemma out_name_distinct (A B : list UploadedFile) g f :
  NoDup (map out_name (A ++ g :: B)) -> In f A -> out_name f <> out_name g.
Proof.
  intros Hnd Hf Heq. rewrite map_app in Hnd. simpl in Hnd.
  apply NoDup_remove_2 in Hnd. apply Hnd. apply in_or_app. left.
  rewrite <- Heq. apply in_map, Hf.
Qed.

Lemma process_files_links w sid files Fprev s :
  NoDup (map out_name (Fprev ++ files)) -> links_ok sid Fprev s ->
  links_ok sid (Fprev ++ files) (snd (process_files w sid files s)).
Proof.
  revert Fprev s; induction files as [|g gs IH]; intros Fprev s Hnd Hl.
  - rewrite app_nil_r. exact Hl.
  - rewrite process_files_step. replace (Fprev ++ g :: gs) with ((Fprev ++ [g]) ++ gs)
      by (rewrite <- app_assoc; reflexivity).
    apply IH; [rewrite <- app_assoc; exact Hnd|].
    pose proof (pres_process_file_outputs w sid g [out_name g] (or_introl eq_refl) s) as Hfr.
    intros u Hu.
    destruct (process_file_link_cases w sid g s) as [(k & Hk) | (k & Hk & Hm)];
      rewrite Hk in Hu; apply in_app_or in Hu as [Hu|Hu].
    + destruct (Hl u Hu) as [->|(f & Hf & -> & Hmf)]; [left; reflexivity|].
      right. exists f. split; [apply in_or_app; left; exact Hf|]. split; [reflexivity|].
      unfold only_outputs in Hfr. rewrite Hfr; [exact Hmf|].
      intros [Heq|[]]. eapply out_name_distinct; [exact Hnd | exact Hf | symmetry; exact Heq].
    + left. apply repeat_spec in Hu. exact Hu.
    + destruct (Hl u Hu) as [->|(f & Hf & -> & Hmf)]; [left; reflexivity|].
      right. exists f. split; [apply in_or_app; left; exact Hf|]. split; [reflexivity|].
      unfold only_outputs in Hfr. rewrite Hfr; [exact Hmf|].
      intros [Heq|[]]. eapply out_name_distinct; [exact Hnd | exact Hf | symmetry; exact Heq].
    + destruct Hu as [<-|Hu].
      * right. exists g. split; [apply in_or_app; right; left; reflexivity|].
        split; [reflexivity | exact Hm].
      * left. apply repeat_spec in Hu. exact Hu.
Qed.

(** ** Further properties of the code *)

Lemma list_ascii_of_string_append a b :
  list_ascii_of_string (a +++ b) = list_ascii_of_string a ++ list_ascii_of_string b.
Proof. induction a as [|c a IH]; simpl; [reflexivity | rewrite IH; reflexivity]. Qed.

Lemma last_segment_no_slash l acc : ~ In "/"%char acc -> ~ In "/"%char (last_segment l acc).
Proof.
  revert acc; induction l as [|c r IH]; intros acc H; simpl; [exact H|].
  destruct (is_slash c) eqn:E; apply IH; [intros []|].
  intro Hin. apply in_app_or in Hin as [Hin|[Hc|[]]]; [exact (H Hin)|].
  subst c. vm_compute in E. discriminate E.
Qed.

(** The output name [`${path.basename(originalname, ext)}.webp`] ends in
    ".webp" and holds no "/": whatever the client sends as the original
    name, the output is written directly inside [public/{session}]. *)
Theorem outputFilename_stays_in_session_dir name :
  ~ In "/"%char (list_ascii_of_string (outputFilename name)) /\
  exists b, outputFilename name = b +++ ".webp".
Proof.
  split; [|eexists; reflexivity].
  unfold outputFilename. rewrite list_ascii_of_string_append. intro H.
  apply in_app_or in H as [H|H]; [| simpl in H; intuition discriminate].
  unfold path_basename in H.
  set (b := last_segment (list_ascii_of_string name) []) in H.
  assert (Hb : ~ In "/"%char b) by (apply last_segment_no_slash; intros []).
  destruct andb; [destruct list_eq_dec|]; rewrite list_ascii_of_string_of_list_ascii in H;
    try exact (Hb H).
  apply Hb. rewrite <- (firstn_skipn (length b - length (list_ascii_of_string (path_extname name))) b).
  apply in_or_app. left. exact H.
Qed.

(** [optimizeWebP] touches nothing but its output file: the uploads, the
    response arrays and every other file of the session directory are left
    as they were, and it never unlinks an upload. *)
Theorem optimizeWebP_only_touches_output w inp out orig isWebP s :
  let s' := snd (optimizeWebP w inp out orig isWebP s) in
  uploads s' = uploads s /\ fileSizes s' = fileSizes s /\ downloadUrls s' = downloadUrls s /\
  (forall n, n <> out -> mem n (outputs s') = mem n (outputs s)) /\
  exists tr, trace s' = trace s ++ tr /\ upload_unlinks tr = 0%nat.
Proof.
  intro s'. subst s'.
  destruct (keeps_optimizeWebP w inp out orig isWebP s) as [K1 K2].
  split; [apply pres_optimizeWebP_uploads|]. split; [exact K1|]. split; [exact K2|].
  split; [|apply pres_optimizeWebP_trace].
  intros n Hn. apply (pres_optimizeWebP_outputs w inp out orig isWebP [out] (or_introl eq_refl) s).
  intros [H|[]]. apply Hn. symmetry. exact H.
Qed.

(** Whatever size [optimizeWebP] resolves with (a size below the original
    or the quality-20 fallback), its output file is then in the session
    directory: a deleted attempt is always followed by another encode. *)
Theorem optimizeWebP_resolves_with_output w inp out orig isWebP s cs :
  fst (optimizeWebP w inp out orig isWebP s) = Ok cs ->
  mem out (outputs (snd (optimizeWebP w inp out orig isWebP s))) = true.
Proof.
  intro H. destruct (optimizeWebP w inp out orig isWebP s) as [r s2] eqn:E.
  cbn [fst snd] in *. subst r. eapply optimizeWebP_present. exact E.
Qed.

Lemma optimizeWebP_resolves_with_output_witness :
  fst (optimizeWebP (const_world 2000000) "uploads/a" "name.webp" 1000000 false photo_state)
    = Ok 2000000 /\
  mem "name.webp"
    (outputs (snd (optimizeWebP (const_world 2000000) "uploads/a" "name.webp" 1000000 false
                    photo_state))) = true.
Proof.
  split; [reflexivity|].
  apply (optimizeWebP_resolves_with_output (const_world 2000000) "uploads/a" "name.webp"
           1000000 false photo_state 2000000).
  reflexivity.
Defined.

(** The links [/convert] records for one file are empty, or the first is
    [/download/{session}/{basename}.webp] and the [/download] route then
    serves that file. *)
Theorem file_link_is_downloadable w sid f s :
  let s' := snd (process_file w sid f s) in
  (exists k, downloadUrls s' = downloadUrls s ++ repeat "" k) \/
  (exists k, downloadUrls s' = downloadUrls s ++ link sid f :: repeat "" k /\
             download_file (outputs s') (out_name f) None = FileSent (out_name f)).
Proof.
  intro s'. subst s'.
  destruct (process_file_link_cases w sid f s) as [H|(k & Hk & Hm)]; [left; exact H|].
  right. exists k. split; [exact Hk|]. unfold download_file. unfold mem in Hm.
  unfold out_name. rewrite Hm. reflexivity.
Qed.

(** When the upload's unlink does not fail for another reason than its
    absence, a file gets exactly one entry and one link, its upload is
    unlinked exactly once, and it is gone afterwards. *)
Theorem file_cleanup_without_fault w sid f s :
  unlink_fault w (path f) = None ->
  let s' := snd (process_file w sid f s) in
  (exists e u, fileSizes s' = fileSizes s ++ [e] /\ downloadUrls s' = downloadUrls s ++ [u] /\
               originalName e = originalname f) /\
  upload_present (path f) s' = false /\
  exists tr, trace s' = trace s ++ tr /\ upload_unlinks tr = 1%nat.
Proof. intro Hf. exact (process_file_no_fault w sid f s Hf). Qed.

Lemma file_cleanup_without_fault_witness :
  unlink_fault tiny_world (path tiny_file) = None /\
  (let s' := snd (process_file tiny_world "s" tiny_file tiny_state) in
   (exists e u, fileSizes s' = fileSizes tiny_state ++ [e] /\
                downloadUrls s' = downloadUrls tiny_state ++ [u] /\
                originalName e = originalname tiny_file) /\
   upload_present (path tiny_file) s' = false /\
   exists tr, trace s' = trace tiny_state ++ tr /\ upload_unlinks tr = 1%nat).
Proof.
  split; [reflexivity|].
  apply (file_cleanup_without_fault tiny_world "s" tiny_file tiny_state). reflexivity.
Defined.


(** When no upload's unlink faults, [/convert] records one entry per
    uploaded file, in upload order, one link per file, and leaves none of
    the batch's uploads behind. *)
Theorem batch_one_entry_per_file w header stamp files s urls zip sizes :
  (forall f, In f files -> unlink_fault w (path f) = None) ->
  fst (convert w header stamp files s) = Ok (ConvertOk urls zip sizes) ->
  map originalName sizes = map originalname files /\ length urls = length files /\
  forall f, In f files -> upload_present (path f) (snd (convert w header stamp files s)) = false.
Proof.
  intros Hf H. destruct files as [|f fs]; [rewrite convert_empty in H; discriminate|].
  apply convert_fst in H as [Hu [Hs ->]].
  destruct (process_files_no_fault w (resolve_session header stamp) (f :: fs)
              (set_downloadUrls [] (set_fileSizes [] s)) Hf)
    as ((es & us & H1 & H2 & H3 & H4) & H5).
  subst urls sizes. split; [|split; [|exact H5]].
  - rewrite H1. exact H3.
  - rewrite H2. exact H4.
Qed.

Lemma batch_one_entry_per_file_witness :
  (forall f, In f sample_batch -> unlink_fault sample_world (path f) = None) /\
  fst (convert sample_world (Some "s") "0" sample_batch sample_state)
    = Ok (ConvertOk ["/download/s/a.webp"; ""] "/download-zip/s" sample_sizes) /\
  (map originalName sample_sizes = map originalname sample_batch /\
   length ["/download/s/a.webp"; ""] = length sample_batch /\
   forall f, In f sample_batch ->
     upload_present (path f) (snd (convert sample_world (Some "s") "0" sample_batch sample_state))
     = false).
Proof.
  split; [intros f _; reflexivity|]. split; [reflexivity|].
  apply (batch_one_entry_per_file sample_world (Some "s") "0" sample_batch sample_state
           ["/download/s/a.webp"; ""] "/download-zip/s" sample_sizes);
    [intros f _; reflexivity | reflexivity].
Defined.

(** [/convert] creates or deletes no file of the session directory other
    than the [{basename}.webp] outputs of the batch. *)
Theorem convert_touches_only_batch_outputs w header stamp files s n :
  ~ In n (map out_name files) ->
  mem n (outputs (snd (convert w header stamp files s))) = mem n (outputs s).
Proof.
  intro Hn. destruct files as [|f fs]; [rewrite convert_empty; reflexivity|].
  destruct (convert_snd w header stamp f fs s) as [->| ->]; [reflexivity|].
  apply (pres_process_files_outputs w (resolve_session header stamp) (f :: fs)
           (map out_name (f :: fs)) (incl_refl _) (set_downloadUrls [] (set_fileSizes [] s))).
  exact Hn.
Qed.

Lemma convert_touches_only_batch_outputs_witness :
  ~ In "old.webp" (map out_name sample_batch) /\
  mem "old.webp" (outputs (snd (convert sample_world (Some "s") "0" sample_batch busy_dir_state)))
    = mem "old.webp" (outputs busy_dir_state).
Proof.
  assert (H : ~ In "old.webp" (map out_name sample_batch))
    by (vm_compute; intros [H|[H|[]]]; discriminate H).
  split; [exact H|].
  apply (convert_touches_only_batch_outputs sample_world (Some "s") "0" sample_batch
           busy_dir_state "old.webp" H).
Defined.

(** [/convert] never creates an upload: one present after the request was
    present before it. *)
Theorem convert_adds_no_upload w header stamp files s p :
  upload_present p (snd (convert w header stamp files s)) = true -> upload_present p s = true.
Proof.
  intro H. destruct files as [|f fs]; [rewrite convert_empty in H; exact H|].
  destruct (convert_snd w header stamp f fs s) as [E|E]; rewrite E in H; [exact H|].
  apply (pres_process_files_uploads w (resolve_session header stamp) (f :: fs)
           (set_downloadUrls [] (set_fileSizes [] s))) in H.
  exact H.
Qed.

Lemma convert_adds_no_upload_witness :
  upload_present "uploads/9" (snd (convert sample_world (Some "s") "0" sample_batch busy_dir_state))
    = true /\
  upload_present "uploads/9" busy_dir_state = true.
Proof.
  split; [reflexivity|].
  apply (convert_adds_no_upload sample_world (Some "s") "0" sample_batch busy_dir_state "uploads/9").
  reflexivity.
Defined.

(** When the batch's output names are pairwise distinct, every non-empty
    link in the [/convert] response is [/download/{session}/{basename}.webp]
    for one of its files, and the [/download] route serves that file. *)
Theorem converted_links_downloadable w header stamp files s urls zip sizes u :
  NoDup (map out_name files) ->
  fst (convert w header stamp files s) = Ok (ConvertOk urls zip sizes) ->
  In u urls -> u <> "" ->
  exists f, In f files /\ u = link (resolve_session header stamp) f /\
    download_file (outputs (snd (convert w header stamp files s))) (out_name f) None
    = FileSent (out_name f).
Proof.
  intros Hnd H Hu Hne. destruct files as [|f fs]; [rewrite convert_empty in H; discriminate|].
  apply convert_fst in H as [Hurls [_ ->]]. subst urls.
  assert (L0 : links_ok (resolve_session header stamp) [] (set_downloadUrls [] (set_fileSizes [] s)))
    by (intros v []).
  destruct (process_files_links w (resolve_session header stamp) (f :: fs) [] _ Hnd L0 u Hu)
    as [Hu'|(g & Hg & Hl & Hm)]; [contradiction|].
  exists g. split; [exact Hg|]. split; [exact Hl|].
  unfold download_file. unfold mem in Hm. unfold out_name. rewrite Hm. reflexivity.
Qed.

Lemma converted_links_downloadable_witness :
  NoDup (map out_name sample_batch) /\
  fst (convert sample_world (Some "s") "0" sample_batch sample_state)
    = Ok (ConvertOk ["/download/s/a.webp"; ""] "/download-zip/s" sample_sizes) /\
  In "/download/s/a.webp" ["/download/s/a.webp"; ""] /\ "/download/s/a.webp" <> "" /\
  exists f, In f sample_batch /\ "/download/s/a.webp" = link (resolve_session (Some "s") "0") f /\
    download_file (outputs (snd (convert sample_world (Some "s") "0" sample_batch sample_state)))
      (out_name f) None = FileSent (out_name f).
Proof.
  assert (H1 : NoDup (map out_name sample_batch)).
  { vm_compute. constructor; [intros [H|[]]; discriminate H | constructor; [intros [] | constructor]]. }
  assert (H2 : fst (convert sample_world (Some "s") "0" sample_batch sample_state)
                 = Ok (ConvertOk ["/download/s/a.webp"; ""] "/download-zip/s" sample_sizes))
    by reflexivity.
  assert (H3 : In "/download/s/a.webp" ["/download/s/a.webp"; ""]) by (simpl; auto).
  assert (H4 : "/download/s/a.webp" <> "") by discriminate.
  split; [exact H1|]. split; [exact H2|]. split; [exact H3|]. split; [exact H4|].
  exact (converted_links_downloadable sample_world (Some "s") "0" sample_batch sample_state
           ["/download/s/a.webp"; ""] "/download-zip/s" sample_sizes "/download/s/a.webp"
           H1 H2 H3 H4).
Defined.

Lemma find_none_existsb {A} (p : A -> bool) l x :
  find p l = None -> In x l -> p x = false.
Proof. intros H Hx. eapply find_none; eauto. Qed.


Lemma remove_stored_one_props w f s :
  let r := remove_stored_one w f s in
  fst r = Ok tt /\ outputs (snd r) = outputs s /\ fileSizes (snd r) = fileSizes s /\
  downloadUrls (snd r) = downloadUrls s /\ no_new_uploads s (snd r) /\
  (unlink_fault w (path f) = None -> upload_present (path f) (snd r) = false).
Proof.
  intro r. subst r. unfold remove_stored_one.
  destruct (existsb (fun e => String.eqb (fst e) (path f)) (uploads s)) eqn:E.
  - pose proof (pres_unlink_upload_no_new w (path f) s) as Hn.
    pose proof (unlink_upload_outputs w (path f) s) as Ho.
    pose proof (keeps_unlink_upload w (path f) s) as [Hk1 Hk2].
    unfold try_catch.
    destruct (unlink_fault w (path f)) eqn:Hf.
    + unfold unlink_upload in *. rewrite Hf in *. cbn in *.
      repeat split; auto. discriminate.
    + rewrite unlink_upload_removes in * by (auto; exact E).
      cbn [fst snd] in *. repeat split; auto. intros _. apply upload_present_removed.
  - unfold ret. cbn [fst snd]. repeat split; auto using no_new_uploads_refl.
Qed.

Lemma remove_stored_props w files s :
  let s' := snd (remove_stored w files s) in
  fst (remove_stored w files s) = Ok tt /\ outputs s' = outputs s /\
  fileSizes s' = fileSizes s /\ downloadUrls s' = downloadUrls s /\ no_new_uploads s s' /\
  (forall g, In g files -> unlink_fault w (path g) = None -> upload_present (path g) s' = false).
Proof.
  revert s; induction files as [|f fs IH]; intros s s'; subst s'.
  - cbn. repeat split; auto using no_new_uploads_refl. intros g [].
  - cbn [remove_stored]. unfold bind.
    destruct (remove_stored_one_props w f s) as (R1 & R2 & R3 & R4 & R5 & R6).
    destruct (remove_stored_one w f s) as [r s1]; cbn [fst snd] in *; subst r.
    destruct (IH s1) as (I1 & I2 & I3 & I4 & I5 & I6).
    repeat split; try congruence.
    + eapply no_new_uploads_trans; eauto.
    + intros g [<-|Hg] Hf; [|apply I6; auto].
      apply not_true_is_false. intro Hp. apply I5 in Hp. rewrite R6 in Hp by exact Hf.
      discriminate.
Qed.

(** A request with a file of a type other than JPEG, PNG, WebP or GIF never
    reaches the route: multer removes the uploads it has stored and its
    error goes to the global error handler, which answers 500 "Internal
    server error"; nothing is converted and no response entry is made. *)
Theorem invalid_type_rejected w header stamp files s f :
  In f files -> ~ In (mimetype f) validTypes ->
  let r := post_convert w header stamp files s in
  fst r = Ok (ConvertError 500 "Internal server error") /\
  outputs (snd r) = outputs s /\ fileSizes (snd r) = fileSizes s /\
  downloadUrls (snd r) = downloadUrls s /\
  (forall g, In g files -> unlink_fault w (path g) = None -> upload_present (path g) (snd r) = false).
Proof.
  intros Hf Hv r. subst r.
  assert (Hi : intake files = Err "Invalid file type. Only JPEG, PNG, WebP, and GIF are allowed.").
  { unfold intake. destruct (find _ files) eqn:E; [reflexivity|].
    exfalso. apply Hv. pose proof (find_none_existsb _ _ _ E Hf) as Hx.
    apply negb_false_iff, existsb_exists in Hx as (t & Ht & Heq).
    apply String.eqb_eq in Heq. subst t. exact Ht. }
  unfold post_convert. rewrite Hi. unfold bind.
  destruct (remove_stored_props w files s) as (R1 & R2 & R3 & R4 & _ & R6).
  destruct (remove_stored w files s) as [r s1]; cbn [fst snd] in *; subst r.
  repeat split; auto.
Qed.

Lemma invalid_type_rejected_witness :
  In pdf_file pdf_batch /\ ~ In (mimetype pdf_file) validTypes /\
  (let r := post_convert (const_world 400000) (Some "s") "0" pdf_batch photo_state in
   fst r = Ok (ConvertError 500 "Internal server error") /\
   outputs (snd r) = outputs photo_state /\ fileSizes (snd r) = fileSizes photo_state /\
   downloadUrls (snd r) = downloadUrls photo_state /\
   (forall g, In g pdf_batch -> unlink_fault (const_world 400000) (path g) = None ->
              upload_present (path g) (snd r) = false)).
Proof.
  assert (H1 : In pdf_file pdf_batch) by (simpl; auto).
  assert (H2 : ~ In (mimetype pdf_file) validTypes)
    by (simpl; intro H; repeat (destruct H as [H|H]; [discriminate H|]); exact H).
  split; [exact H1|]. split; [exact H2|].
  exact (invalid_type_rejected (const_world 400000) (Some "s") "0" pdf_batch photo_state
           pdf_file H1 H2).
Defined.



(** The session id is never empty: an absent or empty [x-session-id]
    header is replaced by [session_{Date.now()}]. *)
Theorem session_id_nonempty header stamp : resolve_session header stamp <> "".
Proof.
  destruct header as [h|]; simpl; [|discriminate].
  destruct (String.eqb h "") eqn:E; [discriminate|]. apply String.eqb_neq. exact E.
Qed.

(** [/download-zip]: the transient zip is left on disk exactly when the
    session directory is non-empty and either the archiver fails, or
    [res.download] fails after the headers are sent (the callback's
    [res.status(500).json] throws before the unlink), or the unlink of the
    zip itself fails; the zip is sent exactly when the directory is
    non-empty and neither the archiver nor the delivery fails. *)
Theorem zip_outcomes session env :
  (snd (download_zip session env) = true <->
     (exists x l, zip_listing env = Some (x :: l)) /\
     (zip_archive_error env <> None \/
      (exists e, delivery_error (zip_delivery env) = Some e /\ after_headers e = true) \/
      zip_unlink_error (zip_delivery env) <> None)) /\
  (fst (download_zip session env) = ZipSent <->
     (exists x l, zip_listing env = Some (x :: l)) /\
     zip_archive_error env = None /\ delivery_error (zip_delivery env) = None).
Proof.
  destruct env as [[[|x l]|] [m|] [[[[] dm]|] [u|]]]; unfold download_zip; cbn;
    split; split; intro H;
    repeat match goal with
           | H : _ /\ _ |- _ => destruct H
           | H : exists _, _ |- _ => destruct H
           | H : _ \/ _ |- _ => destruct H
           | H : Some _ = Some _ |- _ => injection H; clear H; intros; subst
           end;
    try discriminate; try congruence;
    try solve [split; [eauto | first [left; discriminate | right; left; eexists; split; reflexivity
                                     | right; right; discriminate]]];
    try solve [split; [eauto | split; reflexivity]];
    try solve [exfalso; match goal with H : ?a <> ?a |- _ => apply H; reflexivity end].
Qed.
